(** * compose2kube: the per-service translation of a compose project into
    replica sets, as a shallow embedding of [main.go].

    Go strings are byte sequences; they are modelled by [string] (a list of
    8-bit [ascii] characters).  The three ways the program can end a service
    translation are kept apart: normal completion, [log.Fatalf] (a
    diagnostic and [os.Exit(1)]) and a run-time panic (an index out of
    range). *)

From Stdlib Require Import ZArith Ascii String List Lia Bool.
From stdpp Require Import base option strings list gmap.

Local Open Scope Z_scope.

(** ** Outcomes of fallible code *)

Inductive outcome (A : Type) : Type :=
| Ok (a : A)
| Fatal (msg : string)
| Panic.

Arguments Ok {A} a.
Arguments Fatal {A} msg.
Arguments Panic {A}.

#[global] Instance outcome_ret : MRet outcome := fun A a => Ok a.

#[global] Instance outcome_bind : MBind outcome := fun A B k m =>
  match m with
  | Ok a => k a
  | Fatal msg => Fatal msg
  | Panic => Panic
  end.

(** [for _, x := range xs { acc = body acc x }] where the body may end the
    program. *)
Fixpoint forRange {A S : Type} (body : S -> A -> outcome S) (xs : list A) (acc : S)
  : outcome S :=
  match xs with
  | [] => Ok acc
  | x :: xs' => acc' ← body acc x; forRange body xs' acc'
  end.

(** [xs[i]] on a slice: out of range is a run-time panic. *)
Definition index {A : Type} (xs : list A) (i : nat) : outcome A :=
  match xs !! i with
  | Some x => Ok x
  | None => Panic
  end.

(** ** Package [strings] of the Go standard library

    [main.go] calls these functions; their code is not part of the
    repository, so they are written after their documented behaviour, for
    the arguments the program passes: one-byte separators and a cutset of
    ASCII bytes. *)

Module Strings.

Definition byte (n : nat) : ascii := ascii_of_nat n.

Fixpoint inSet (c : ascii) (cutset : string) : bool :=
  match cutset with
  | EmptyString => false
  | String d cutset' => Ascii.eqb c d || inSet c cutset'
  end.

(** [strings.Contains(s, sep)] for a one-byte separator. *)
Definition Contains (s : string) (sep : ascii) : bool := inSet sep s.

Fixpoint TrimLeft (s cutset : string) : string :=
  match s with
  | EmptyString => EmptyString
  | String c s' => if inSet c cutset then TrimLeft s' cutset else s
  end.

Fixpoint TrimRight (s cutset : string) : string :=
  match s with
  | EmptyString => EmptyString
  | String c s' =>
      match TrimRight s' cutset with
      | EmptyString => if inSet c cutset then EmptyString else String c EmptyString
      | r => String c r
      end
  end.

(** [strings.Trim(s, cutset)] for a cutset of ASCII bytes: all leading
    and trailing bytes contained in the cutset are removed. *)
Definition Trim (s cutset : string) : string :=
  TrimLeft (TrimRight s cutset) cutset.

Definition ofBytes (l : list nat) : string :=
  fold_right (fun n s => String (byte n) s) EmptyString l.

(** The UTF-8 encodings of the runes for which [unicode.IsSpace] holds:
    U+0009..U+000D, U+0020, U+0085, U+00A0, U+1680, U+2000..U+200A,
    U+2028, U+2029, U+202F, U+205F, U+3000. *)
Definition spaceRunes : list string :=
  map ofBytes
    [ [9%nat]; [10%nat]; [11%nat]; [12%nat]; [13%nat]; [32%nat];
      [194; 133]%nat; [194; 160]%nat; [225; 154; 128]%nat;
      [226; 128; 128]%nat; [226; 128; 129]%nat; [226; 128; 130]%nat;
      [226; 128; 131]%nat; [226; 128; 132]%nat; [226; 128; 133]%nat;
      [226; 128; 134]%nat; [226; 128; 135]%nat; [226; 128; 136]%nat;
      [226; 128; 137]%nat; [226; 128; 138]%nat; [226; 128; 168]%nat;
      [226; 128; 169]%nat; [226; 128; 175]%nat; [226; 129; 159]%nat;
      [227; 128; 128]%nat ].

Fixpoint stripPrefix (p s : string) : option string :=
  match p, s with
  | EmptyString, _ => Some s
  | String a p', String b s' => if Ascii.eqb a b then stripPrefix p' s' else None
  | String _ _, EmptyString => None
  end.

(** The rest of [s] after one leading white-space rune, if it has one. *)
Fixpoint stripAny (runes : list string) (s : string) : option string :=
  match runes with
  | [] => None
  | r :: runes' =>
      match stripPrefix r s with
      | Some t => Some t
      | None => stripAny runes' s
      end
  end.

Definition stripSpaceRune (s : string) : option string :=
  stripAny spaceRunes s.

Definition isSpaceRune (s : string) : bool :=
  existsb (String.eqb s) spaceRunes.

Fixpoint trimLeftSpace (fuel : nat) (s : string) : string :=
  match fuel with
  | O => s
  | S fuel' =>
      match stripSpaceRune s with
      | Some r => trimLeftSpace fuel' r
      | None => s
      end
  end.

Fixpoint trimRightSpace (s : string) : string :=
  match s with
  | EmptyString => EmptyString
  | String c s' =>
      let r := String c (trimRightSpace s') in
      if isSpaceRune r then EmptyString else r
  end.

(** [strings.TrimSpace(s)]: leading, then trailing white-space runes
    are removed. *)
Definition TrimSpace (s : string) : string :=
  trimRightSpace (trimLeftSpace (String.length s) s).

(** [strings.Split(s, sep)] for a one-byte separator: the fields between
    the occurrences of [sep], always at least one. *)
Fixpoint Split (s : string) (sep : ascii) : list string :=
  match s with
  | EmptyString => [EmptyString]
  | String c s' =>
      if Ascii.eqb c sep then EmptyString :: Split s' sep
      else match Split s' sep with
           | f :: fs => String c f :: fs
           | [] => [String c EmptyString]
           end
  end.

(** [strings.Replace(s, old, new, -1)] for a one-byte [old]. *)
Fixpoint Replace (s : string) (old : ascii) (new : string) : string :=
  match s with
  | EmptyString => EmptyString
  | String c s' =>
      if Ascii.eqb c old then new +:+ Replace s' old new
      else String c (Replace s' old new)
  end.

End Strings.

(** ** Package [strconv] of the Go standard library

    [ParseInt] and [ParseUint] for base 10, following the library's code:
    the sign is picked off, the digits are accumulated in a [uint64] with
    its overflow checks, and the result is compared with the cutoff of the
    bit size.  The program only looks at the value when the error is nil. *)

Module Strconv.

Inductive NumError : Type := ErrSyntax | ErrRange.

Definition maxUint64 : Z := 2 ^ 64 - 1.

(** The value of a decimal digit byte. *)
Definition digit (c : ascii) : option Z :=
  let n := Z.of_nat (nat_of_ascii c) in
  if (48 <=? n) && (n <=? 57) then Some (n - 48) else None.

(** The digit loop of [ParseUint] in base 10; [n] is a [uint64], its
    wrap-around written out. *)
Fixpoint parseUintLoop (s : string) (maxVal : Z) (n : Z) : Z * option NumError :=
  match s with
  | EmptyString => (n, None)
  | String c s' =>
      match digit c with
      | None => (0, Some ErrSyntax)
      | Some d =>
          if maxUint64 / 10 + 1 <=? n then (maxVal, Some ErrRange)
          else
            let n10 := (n * 10) mod 2 ^ 64 in
            let n1 := (n10 + d) mod 2 ^ 64 in
            if (n1 <? n10) || (maxVal <? n1) then (maxVal, Some ErrRange)
            else parseUintLoop s' maxVal n1
      end
  end.

(** [strconv.ParseUint(s, 10, bitSize)], [0 < bitSize <= 64]. *)
Definition ParseUint10 (s : string) (bitSize : Z) : Z * option NumError :=
  match s with
  | EmptyString => (0, Some ErrSyntax)
  | _ => parseUintLoop s (2 ^ bitSize - 1) 0
  end.

(** [strconv.ParseInt(s, 10, bitSize)], [0 < bitSize <= 64]. *)
Definition ParseInt10 (s : string) (bitSize : Z) : Z * option NumError :=
  match s with
  | EmptyString => (0, Some ErrSyntax)
  | String c0 s1 =>
      let '(neg, s') :=
        if Ascii.eqb c0 "+" then (false, s1)
        else if Ascii.eqb c0 "-" then (true, s1)
        else (false, s) in
      let '(un, err) := ParseUint10 s' bitSize in
      match err with
      | Some ErrSyntax => (0, Some ErrSyntax)
      | _ =>
          let cutoff := 2 ^ (bitSize - 1) in
          if negb neg && (cutoff <=? un) then (cutoff - 1, Some ErrRange)
          else if neg && (cutoff <? un) then (- cutoff, Some ErrRange)
          else (if neg then - un else un, None)
      end
  end.

End Strconv.

(** The conversion [int32(x)] of an [int64]. *)
Definition int32 (x : Z) : Z := (x + 2 ^ 31) mod 2 ^ 32 - 2 ^ 31.

(** ** The Kubernetes API objects the program fills in *)

Module api.

Record ObjectMeta : Type := {
  ObjectMeta_Name : string;
  ObjectMeta_Labels : gmap string string }.

Record ContainerPort : Type := { ContainerPort_ContainerPort : Z }.

Record EnvVar : Type := {
  EnvVar_Name : string;
  EnvVar_Value : string }.

Record VolumeMount : Type := {
  VolumeMount_Name : string;
  VolumeMount_ReadOnly : bool;
  VolumeMount_MountPath : string }.

Record HostPathVolumeSource : Type := { HostPathVolumeSource_Path : string }.

Record VolumeSource : Type := {
  VolumeSource_HostPath : option HostPathVolumeSource }.

Record Volume : Type := {
  Volume_Name : string;
  Volume_VolumeSource : VolumeSource }.

Record Container : Type := {
  Container_Name : string;
  Container_Image : string;
  Container_Command : list string;
  Container_Ports : list ContainerPort;
  Container_Env : list EnvVar;
  Container_VolumeMounts : list VolumeMount }.

(** [type RestartPolicy string] *)
Definition RestartPolicy : Type := string.
Definition RestartPolicyAlways : RestartPolicy := "Always"%string.
Definition RestartPolicyOnFailure : RestartPolicy := "OnFailure"%string.
Definition RestartPolicyNever : RestartPolicy := "Never"%string.

Record PodSpec : Type := {
  PodSpec_Volumes : list Volume;
  PodSpec_Containers : list Container;
  PodSpec_RestartPolicy : RestartPolicy }.

Record PodTemplateSpec : Type := {
  PodTemplateSpec_ObjectMeta : ObjectMeta;
  PodTemplateSpec_Spec : PodSpec }.

End api.

Module unversioned.

Record TypeMeta : Type := {
  TypeMeta_Kind : string;
  TypeMeta_APIVersion : string }.

End unversioned.

Module extensions.

Record ReplicaSetSpec : Type := {
  ReplicaSetSpec_Replicas : Z;
  ReplicaSetSpec_Selector : option (gmap string string);
  ReplicaSetSpec_Template : api.PodTemplateSpec }.

Record ReplicaSet : Type := {
  ReplicaSet_TypeMeta : unversioned.TypeMeta;
  ReplicaSet_ObjectMeta : api.ObjectMeta;
  ReplicaSet_Spec : ReplicaSetSpec }.

End extensions.

(** ** The compose service configuration read by the program *)

Module config.

Record ServiceConfig : Type := {
  Image : string;
  Command : list string;
  Ports : list string;
  Environment : list string;
  Volumes : list string;
  Restart : string }.

End config.

(** ** [main.go] *)

Import api unversioned extensions config.

Local Open Scope string_scope.
Local Open Scope list_scope.

(** The diagnostics of the [log.Fatalf] calls. *)
Definition InvalidPort (port name : string) : string :=
  "Invalid container port " +:+ port +:+ " for service " +:+ name.

Definition UnknownRestartPolicy (restart name : string) : string :=
  "Unknown restart policy " +:+ restart +:+ " for service " +:+ name.

Definition FailedToGetKey (name : string) : string :=
  "Failed to get key " +:+ name +:+ " from config".

Definition FailedToMarshal (err : string) : string :=
  "Failed to marshal the replica set: " +:+ err.

Definition FailedToWrite (outputFileName err : string) : string :=
  "Failed to write replica set " +:+ outputFileName +:+ ": " +:+ err.

(** The cutset of line 108: the double-quote byte alone. *)
Definition quoteCutset : string := String (Strings.byte 34) EmptyString.

(** Lines 70-102: the replica set before the lists are filled in. *)
Definition newReplicaSet (name : string) (service : ServiceConfig) : ReplicaSet :=
  let objectMeta :=
    {| ObjectMeta_Name := name;
       ObjectMeta_Labels := {[ "service" := name ]} |} in
  let podTemplateSpec :=
    {| PodTemplateSpec_ObjectMeta :=
         {| ObjectMeta_Name := "";
            ObjectMeta_Labels := {[ "service" := name ]} |};
       PodTemplateSpec_Spec :=
         {| PodSpec_Volumes := [];
            PodSpec_Containers :=
              [ {| Container_Name := name;
                   Container_Image := Image service;
                   Container_Command := Command service;
                   Container_Ports := [];
                   Container_Env := [];
                   Container_VolumeMounts := [] |} ];
            PodSpec_RestartPolicy := "" |} |} in
  {| ReplicaSet_TypeMeta :=
       {| TypeMeta_Kind := "ReplicaSet";
          TypeMeta_APIVersion := "extensions/v1beta1" |};
     ReplicaSet_ObjectMeta := objectMeta;
     ReplicaSet_Spec :=
       {| ReplicaSetSpec_Replicas := 1;
          ReplicaSetSpec_Selector := None;
          ReplicaSetSpec_Template := podTemplateSpec |} |}.

(** Field assignments. *)
Definition setPodSpec (f : PodSpec -> PodSpec) (rs : ReplicaSet) : ReplicaSet :=
  let spec := ReplicaSet_Spec rs in
  let tmpl := ReplicaSetSpec_Template spec in
  {| ReplicaSet_TypeMeta := ReplicaSet_TypeMeta rs;
     ReplicaSet_ObjectMeta := ReplicaSet_ObjectMeta rs;
     ReplicaSet_Spec :=
       {| ReplicaSetSpec_Replicas := ReplicaSetSpec_Replicas spec;
          ReplicaSetSpec_Selector := ReplicaSetSpec_Selector spec;
          ReplicaSetSpec_Template :=
            {| PodTemplateSpec_ObjectMeta := PodTemplateSpec_ObjectMeta tmpl;
               PodTemplateSpec_Spec := f (PodTemplateSpec_Spec tmpl) |} |} |}.

Definition podSpec (rs : ReplicaSet) : PodSpec :=
  PodTemplateSpec_Spec (ReplicaSetSpec_Template (ReplicaSet_Spec rs)).

(** [rs.Spec.Template.Spec.Containers[0].F = v]: the index is checked. *)
Definition setContainer0 (f : Container -> Container) (rs : ReplicaSet)
  : outcome ReplicaSet :=
  _ ← index (PodSpec_Containers (podSpec rs)) 0;
  Ok (setPodSpec (fun ps =>
        {| PodSpec_Volumes := PodSpec_Volumes ps;
           PodSpec_Containers := alter f 0%nat (PodSpec_Containers ps);
           PodSpec_RestartPolicy := PodSpec_RestartPolicy ps |}) rs).

Definition setPorts (ports : list ContainerPort) (c : Container) : Container :=
  {| Container_Name := Container_Name c;
     Container_Image := Container_Image c;
     Container_Command := Container_Command c;
     Container_Ports := ports;
     Container_Env := Container_Env c;
     Container_VolumeMounts := Container_VolumeMounts c |}.

Definition setEnv (envs : list EnvVar) (c : Container) : Container :=
  {| Container_Name := Container_Name c;
     Container_Image := Container_Image c;
     Container_Command := Container_Command c;
     Container_Ports := Container_Ports c;
     Container_Env := envs;
     Container_VolumeMounts := Container_VolumeMounts c |}.

Definition setVolumeMounts (volumemounts : list VolumeMount) (c : Container) : Container :=
  {| Container_Name := Container_Name c;
     Container_Image := Container_Image c;
     Container_Command := Container_Command c;
     Container_Ports := Container_Ports c;
     Container_Env := Container_Env c;
     Container_VolumeMounts := volumemounts |}.

Definition setVolumes (volumes : list Volume) (rs : ReplicaSet) : ReplicaSet :=
  setPodSpec (fun ps =>
    {| PodSpec_Volumes := volumes;
       PodSpec_Containers := PodSpec_Containers ps;
       PodSpec_RestartPolicy := PodSpec_RestartPolicy ps |}) rs.

Definition setRestartPolicy (p : RestartPolicy) (rs : ReplicaSet) : ReplicaSet :=
  setPodSpec (fun ps =>
    {| PodSpec_Volumes := PodSpec_Volumes ps;
       PodSpec_Containers := PodSpec_Containers ps;
       PodSpec_RestartPolicy := p |}) rs.

(** Lines 107-113: the text handed to [ParseInt]. *)
Definition portText (port : string) : outcome string :=
  let port := Strings.Trim port quoteCutset in
  let port := Strings.TrimSpace port in
  if Strings.Contains port ":" then
    let parts := Strings.Split port ":" in
    index parts 1
  else Ok port.

(** Lines 106-119: the body of the loop over [service.Ports]. *)
Definition portBody (name : string) (ports : list ContainerPort) (port : string)
  : outcome (list ContainerPort) :=
  port ← portText port;
  let '(portNumber, err) := Strconv.ParseInt10 port 32 in
  match err with
  | Some _ => Fatal (InvalidPort port name)
  | None => Ok (ports ++ [ {| ContainerPort_ContainerPort := int32 portNumber |} ])
  end.

(** Lines 124-131: the body of the loop over [service.Environment]. *)
Definition envBody (envs : list EnvVar) (env : string) : outcome (list EnvVar) :=
  if Strings.Contains env "=" then
    let parts := Strings.Split env "=" in
    ename ← index parts 0;
    evalue ← index parts 1;
    Ok (envs ++ [ {| EnvVar_Name := ename; EnvVar_Value := evalue |} ])
  else Ok envs.

(** Lines 144-151: the switch on one option; [break] leaves the switch
    only, so the loop goes on. *)
Definition readOnlyBody (partReadOnly : bool) (partOpt : string) : bool :=
  if String.eqb partOpt "ro" then true
  else if String.eqb partOpt "rw" then false
  else partReadOnly.

(** Lines 137-165: the body of the loop over [service.Volumes]. *)
Definition volumeBody (acc : list VolumeMount * list Volume) (volumestr : string)
  : outcome (list VolumeMount * list Volume) :=
  let '(volumemounts, volumes) := acc in
  let parts := Strings.Split volumestr ":" in
  partHostDir ← index parts 0;
  partContainerDir ← index parts 1;
  let partReadOnly := false in
  let partReadOnly :=
    if (2 <? length parts)%nat
    then fold_left readOnlyBody (drop 2 parts) partReadOnly
    else partReadOnly in
  let partName := Strings.Replace partHostDir "/" "" in
  let volumemounts :=
    if (2 <? length parts)%nat
    then volumemounts ++
           [ {| VolumeMount_Name := partName;
                VolumeMount_ReadOnly := partReadOnly;
                VolumeMount_MountPath := partContainerDir |} ]
    else volumemounts ++
           [ {| VolumeMount_Name := partName;
                VolumeMount_ReadOnly := partReadOnly;
                VolumeMount_MountPath := partContainerDir |} ] in
  let source := {| HostPathVolumeSource_Path := partHostDir |} in
  let vsource := {| VolumeSource_HostPath := Some source |} in
  Ok (volumemounts,
      volumes ++ [ {| Volume_Name := partName; Volume_VolumeSource := vsource |} ]).

(** Lines 170-179. *)
Definition restartPolicy (name : string) (service : ServiceConfig) (rs : ReplicaSet)
  : outcome ReplicaSet :=
  let restart := Restart service in
  if String.eqb restart "" || String.eqb restart "always"
  then Ok (setRestartPolicy RestartPolicyAlways rs)
  else if String.eqb restart "no"
  then Ok (setRestartPolicy RestartPolicyNever rs)
  else if String.eqb restart "on-failure"
  then Ok (setRestartPolicy RestartPolicyOnFailure rs)
  else Fatal (UnknownRestartPolicy restart name).

(** Lines 70-179: one iteration of the loop over the services, up to the
    replica set that is written out. *)
Definition translate (name : string) (service : ServiceConfig) : outcome ReplicaSet :=
  let rs := newReplicaSet name service in
  ports ← forRange (portBody name) (Ports service) [];
  rs ← setContainer0 (setPorts ports) rs;
  envs ← forRange envBody (Environment service) [];
  rs ← setContainer0 (setEnv envs) rs;
  '(volumemounts, volumes) ← forRange volumeBody (Volumes service) ([], []);
  rs ← setContainer0 (setVolumeMounts volumemounts) rs;
  let rs := setVolumes volumes rs in
  restartPolicy name service rs.

(** Lines 64-195: the loop over the service names.  The serializer, the
    path join and the file system are outside the program; they are taken
    as they come.  What the run has written and printed is kept when the
    run is ended by a fatal diagnostic. *)

Record world : Type := {
  files : list (string * string);
  stdout : list string }.

Section Run.

Variable MarshalIndent : ReplicaSet -> string + string.
Variable Join : string -> string -> string.
Variable WriteFile : string -> string -> option string.
Variable outputDir : string.
Variable ServiceConfigs : gmap string ServiceConfig.

Definition serviceBody (w : world) (name : string) : world * outcome unit :=
  match ServiceConfigs !! name with
  | None => (w, Fatal (FailedToGetKey name))
  | Some service =>
      match translate name service with
      | Fatal msg => (w, Fatal msg)
      | Panic => (w, Panic)
      | Ok rs =>
          match MarshalIndent rs with
          | inr err => (w, Fatal (FailedToMarshal err))
          | inl replicaSetData =>
              let outputFileName := name +:+ "-rs.json" in
              let outputFilePath := Join outputDir outputFileName in
              match WriteFile outputFilePath replicaSetData with
              | Some err => (w, Fatal (FailedToWrite outputFileName err))
              | None =>
                  ({| files := files w ++ [(outputFilePath, replicaSetData)];
                      stdout := stdout w ++ [outputFilePath] |}, Ok ())
              end
          end
      end
  end.

Fixpoint mainLoop (keys : list string) (w : world) : world * outcome unit :=
  match keys with
  | [] => (w, Ok ())
  | name :: keys' =>
      match serviceBody w name with
      | (w', Ok _) => mainLoop keys' w'
      | (w', Fatal msg) => (w', Fatal msg)
      | (w', Panic) => (w', Panic)
      end
  end.

End Run.

(** ** The mapping rules as the specification words them

    These definitions are written from the rules, not from the code; the
    theorems below compare them with the embedding above. *)

(** The text before the first [sep], the whole text when there is none. *)
Fixpoint untilSep (sep : ascii) (s : string) : string :=
  match s with
  | EmptyString => EmptyString
  | String c s' => if Ascii.eqb c sep then EmptyString else String c (untilSep sep s')
  end.

(** The text after the first [sep], empty when there is none. *)
Fixpoint afterSep (sep : ascii) (s : string) : string :=
  match s with
  | EmptyString => EmptyString
  | String c s' => if Ascii.eqb c sep then s' else afterSep sep s'
  end.

(** The text between the first and the second [sep] (up to the end when
    there is no second one). *)
Definition secondField (sep : ascii) (s : string) : string :=
  untilSep sep (afterSep sep s).

(** [s] with every byte [c] deleted. *)
Fixpoint deleteByte (c : ascii) (s : string) : string :=
  match s with
  | EmptyString => EmptyString
  | String d s' => if Ascii.eqb d c then deleteByte c s' else String d (deleteByte c s')
  end.

(** The number written by a run of decimal digits, read after [acc]. *)
Fixpoint digitsValue (s : string) (acc : Z) : option Z :=
  match s with
  | EmptyString => Some acc
  | String c s' =>
      match Strconv.digit c with
      | Some d => digitsValue s' (10 * acc + d)
      | None => None
      end
  end.

(** A base-10 signed integer: an optional sign and at least one digit. *)
Definition decimal (s : string) : option Z :=
  match s with
  | EmptyString => None
  | String c s1 =>
      let neg := Ascii.eqb c "-" in
      let body := if Ascii.eqb c "+" || Ascii.eqb c "-" then s1 else s in
      match body with
      | EmptyString => None
      | _ =>
          match digitsValue body 0 with
          | Some v => Some (if neg then - v else v)
          | None => None
          end
      end
  end.

(** ... that fits 32 bits. *)
Definition decimalInt32 (s : string) : option Z :=
  match decimal s with
  | Some v => if ((- 2 ^ 31 <=? v) && (v <? 2 ^ 31))%Z then Some v else None
  | None => None
  end.

(** The port rule: quotes off, then white space off, then the second
    colon-separated field when there is a colon. *)
Definition portField (raw : string) : string :=
  let cleaned := Strings.TrimSpace (Strings.Trim raw quoteCutset) in
  if Strings.Contains cleaned ":" then secondField ":" cleaned else cleaned.

Definition portRule (name : string) (ports : list ContainerPort) (raw : string)
  : outcome (list ContainerPort) :=
  match decimalInt32 (portField raw) with
  | Some n => Ok (ports ++ [ {| ContainerPort_ContainerPort := n |} ])
  | None => Fatal (InvalidPort (portField raw) name)
  end.

(** The environment rule: what one entry adds to the list. *)
Definition envRule (env : string) : list EnvVar :=
  if Strings.Contains env "="
  then [ {| EnvVar_Name := untilSep "=" env; EnvVar_Value := secondField "=" env |} ]
  else [].

(** The restart table. *)
Definition restartTable : list (string * RestartPolicy) :=
  [ ("", RestartPolicyAlways); ("always", RestartPolicyAlways);
    ("no", RestartPolicyNever); ("on-failure", RestartPolicyOnFailure) ].

Definition restartRule (restart : string) : option RestartPolicy :=
  (list_to_map restartTable : gmap string RestartPolicy) !! restart.

(** The volume rule: the last of the tokens [ro] and [rw] among the
    options decides; none of them means read-write. *)
Definition isMode (opt : string) : bool :=
  String.eqb opt "ro" || String.eqb opt "rw".

Definition readOnlyRule (opts : list string) : bool :=
  match filter (fun opt => isMode opt = true) opts with
  | [] => false
  | m :: ms => String.eqb (List.last ms m) "ro"
  end.

Definition mountRule (volumestr : string) : VolumeMount :=
  {| VolumeMount_Name := deleteByte "/" (untilSep ":" volumestr);
     VolumeMount_ReadOnly := readOnlyRule (drop 2 (Strings.Split volumestr ":"));
     VolumeMount_MountPath := secondField ":" volumestr |}.

Definition volumeRule (volumestr : string) : Volume :=
  {| Volume_Name := deleteByte "/" (untilSep ":" volumestr);
     Volume_VolumeSource :=
       {| VolumeSource_HostPath :=
            Some {| HostPathVolumeSource_Path := untilSep ":" volumestr |} |} |}.

(** The port list of a service: every entry resolved in order, the first
    entry that is not a 32-bit decimal integer ends the translation. *)
Fixpoint portsRule (name : string) (raws : list string) : outcome (list ContainerPort) :=
  match raws with
  | [] => Ok []
  | raw :: raws' =>
      match decimalInt32 (portField raw) with
      | None => Fatal (InvalidPort (portField raw) name)
      | Some n =>
          ports ← portsRule name raws';
          Ok ({| ContainerPort_ContainerPort := n |} :: ports)
      end
  end.

(** The descriptor assembled from the resolved parts. *)
Definition descriptor (name : string) (service : ServiceConfig)
    (ports : list ContainerPort) (envs : list EnvVar)
    (volumemounts : list VolumeMount) (volumes : list Volume)
    (policy : RestartPolicy) : ReplicaSet :=
  {| ReplicaSet_TypeMeta :=
       {| TypeMeta_Kind := "ReplicaSet";
          TypeMeta_APIVersion := "extensions/v1beta1" |};
     ReplicaSet_ObjectMeta :=
       {| ObjectMeta_Name := name;
          ObjectMeta_Labels := {[ "service" := name ]} |};
     ReplicaSet_Spec :=
       {| ReplicaSetSpec_Replicas := 1;
          ReplicaSetSpec_Selector := None;
          ReplicaSetSpec_Template :=
            {| PodTemplateSpec_ObjectMeta :=
                 {| ObjectMeta_Name := "";
                    ObjectMeta_Labels := {[ "service" := name ]} |};
               PodTemplateSpec_Spec :=
                 {| PodSpec_Volumes := volumes;
                    PodSpec_Containers :=
                      [ {| Container_Name := name;
                           Container_Image := Image service;
                           Container_Command := Command service;
                           Container_Ports := ports;
                           Container_Env := envs;
                           Container_VolumeMounts := volumemounts |} ];
                    PodSpec_RestartPolicy := policy |} |} |} |}.

(** The whole translation: ports first, then the volumes (an entry without
    a colon has no container path to read), then the restart policy. *)
Definition translateRule (name : string) (service : ServiceConfig) : outcome ReplicaSet :=
  ports ← portsRule name (Ports service);
  if forallb (fun v => Strings.Contains v ":") (Volumes service) then
    match restartRule (Restart service) with
    | Some policy =>
        Ok (descriptor name service ports
              (flat_map envRule (Environment service))
              (map mountRule (Volumes service))
              (map volumeRule (Volumes service))
              policy)
    | None => Fatal (UnknownRestartPolicy (Restart service) name)
    end
  else Panic.

(** ** Sample inputs *)

Definition sampleService (ports env vols : list string) (restart : string)
  : ServiceConfig :=
  {| Image := "nginx"; Command := ["nginx"; "-g"]; Ports := ports;
     Environment := env; Volumes := vols; Restart := restart |}.

Definition web : ServiceConfig :=
  sampleService ["8080:80"] ["DEBUG=true"] ["/host/data:/data:ro"] "".

(** Padding outside the quotes, and padding inside the quotes. *)
Definition padded53 : string := " " +:+ quoteCutset +:+ "53" +:+ quoteCutset +:+ " ".
Definition quoted53 : string := quoteCutset +:+ " 53 " +:+ quoteCutset.
Definition bare53 : string := quoteCutset +:+ "53" +:+ quoteCutset.

Definition database : ServiceConfig :=
  sampleService ["5432"] [] ["/data/db:/var/lib/db"; "/etc/conf:/conf:ro"] "always".

Definition databaseDescriptor : ReplicaSet :=
  descriptor "db" database [ {| ContainerPort_ContainerPort := 5432 |} ] []
    (map mountRule (Volumes database)) (map volumeRule (Volumes database))
    RestartPolicyAlways.

Definition webDescriptor : ReplicaSet :=
  descriptor "web" web [ {| ContainerPort_ContainerPort := 80 |} ]
    [ {| EnvVar_Name := "DEBUG"; EnvVar_Value := "true" |} ]
    [ {| VolumeMount_Name := "hostdata"; VolumeMount_ReadOnly := true;
         VolumeMount_MountPath := "/data" |} ]
    [ {| Volume_Name := "hostdata";
         Volume_VolumeSource :=
           {| VolumeSource_HostPath :=
                Some {| HostPathVolumeSource_Path := "/host/data" |} |} |} ]
    RestartPolicyAlways.

(** A volume given by its container path alone. *)
Definition dataOnly : ServiceConfig :=
  sampleService [] [] ["/data"] "".

Definition badPort : ServiceConfig :=
  sampleService ["80"; "notanumber"; "x"] [] ["/data"] "sometimes".

Definition sampleConfigs : gmap string ServiceConfig :=
  {[ "bad" := badPort; "web" := web ]}.

(** ** Conditions on a service and views of an outcome *)

(** The port entry resolves to a 32-bit decimal integer. *)
Definition portParses (raw : string) : bool :=
  match decimalInt32 (portField raw) with
  | Some _ => true
  | None => false
  end.

(** The volume entry has a colon, hence a second part. *)
Definition hasColon (volumestr : string) : bool := Strings.Contains volumestr ":".

(** The cases of the switch of lines 170-176. *)
Definition restartKnown (restart : string) : bool :=
  String.eqb restart "" || String.eqb restart "always" ||
  String.eqb restart "no" || String.eqb restart "on-failure".

(** How a computation failed, if it did: a diagnostic or a panic. *)
Definition failure {A : Type} (r : outcome A) : option (option string) :=
  match r with
  | Ok _ => None
  | Fatal msg => Some (Some msg)
  | Panic => Some None
  end.

Definition succeeded {A : Type} (r : outcome A) : bool :=
  match r with
  | Ok _ => true
  | Fatal _ | Panic => false
  end.

Definition withEnvironment (env : list string) (service : ServiceConfig) : ServiceConfig :=
  {| Image := Image service; Command := Command service; Ports := Ports service;
     Environment := env; Volumes := Volumes service; Restart := Restart service |}.

(** Every byte of the text satisfies [p]. *)
Fixpoint allBytes (p : ascii -> bool) (s : string) : bool :=
  match s with
  | EmptyString => true
  | String c s' => p c && allBytes p s'
  end.

Definition isDigit (c : ascii) : bool :=
  match Strconv.digit c with
  | Some _ => true
  | None => false
  end.

(** An optional sign followed by one or more decimal digits. *)
Definition isDecimalText (s : string) : bool :=
  match s with
  | EmptyString => false
  | String c s1 =>
      let body := if Ascii.eqb c "+" || Ascii.eqb c "-" then s1 else s in
      match body with
      | EmptyString => false
      | _ => allBytes isDigit body
      end
  end.

(** The name of the file written for a service, line 189. *)
Definition fileNameOf (name : string) : string := name +:+ "-rs.json".

(** ** What a run writes for one service

    Read off lines 65-194: the file of a service is the serialization of
    its replica set, at the joined path; it is written when the key is
    there, the translation and the serialization succeed, and the write
    reports no error. *)

Section RunViews.

Variable MarshalIndent : ReplicaSet -> string + string.
Variable Join : string -> string -> string.
Variable WriteFile : string -> string -> option string.
Variable outputDir : string.
Variable ServiceConfigs : gmap string ServiceConfig.

Definition fileFor (name : string) : option (string * string) :=
  match ServiceConfigs !! name with
  | Some service =>
      match translate name service with
      | Ok rs =>
          match MarshalIndent rs with
          | inl replicaSetData => Some (Join outputDir (fileNameOf name), replicaSetData)
          | inr _ => None
          end
      | Fatal _ | Panic => None
      end
  | None => None
  end.

Definition serviceWrites (name : string) : option (string * string) :=
  match fileFor name with
  | Some (outputFilePath, replicaSetData) =>
      match WriteFile outputFilePath replicaSetData with
      | None => Some (outputFilePath, replicaSetData)
      | Some _ => None
      end
  | None => None
  end.

End RunViews.

(** * Facts about the library functions *)

Local Open Scope Z_scope.

#[local] Arguments String.append !_ _ / : simpl nomatch.

Section StringsFacts.

Import Strings.

Lemma Contains_cons (c sep : ascii) (s : string) :
  Contains (String c s) sep = Ascii.eqb c sep || Contains s sep.
Proof. unfold Contains; simpl. by rewrite (Ascii.eqb_sym sep c). Qed.

Lemma Contains_nil (sep : ascii) : Contains EmptyString sep = false.
Proof. done. Qed.

(** [Split] cuts at the first separator and goes on with the rest. *)
Lemma Split_unfold (s : string) (sep : ascii) :
  Split s sep =
    untilSep sep s :: (if Contains s sep then Split (afterSep sep s) sep else []).
Proof.
  induction s as [|c s IH]; [done|].
  rewrite Contains_cons. simpl.
  destruct (Ascii.eqb c sep); simpl; [done|].
  by rewrite IH.
Qed.

Lemma Split_lookup_0 (s : string) (sep : ascii) :
  Split s sep !! 0%nat = Some (untilSep sep s).
Proof. by rewrite Split_unfold. Qed.

Lemma Split_lookup_1 (s : string) (sep : ascii) :
  Split s sep !! 1%nat =
    if Contains s sep then Some (secondField sep s) else None.
Proof.
  rewrite Split_unfold. destruct (Contains s sep); [|done].
  simpl. by rewrite Split_lookup_0.
Qed.

Lemma Split_length (s : string) (sep : ascii) :
  (2 <= length (Split s sep))%nat <-> Contains s sep = true.
Proof.
  rewrite Split_unfold. destruct (Contains s sep); simpl.
  - rewrite Split_unfold. simpl. split; [done|lia].
  - split; [lia|done].
Qed.

Lemma Split_without_sep (s : string) (sep : ascii) :
  Contains s sep = false -> Split s sep = [s].
Proof.
  induction s as [|c s IH]; [done|].
  rewrite Contains_cons. intros [Hc Hs]%orb_false_elim.
  simpl. rewrite Hc, (IH Hs). done.
Qed.

Lemma Contains_untilSep (s : string) (sep : ascii) :
  Contains (untilSep sep s) sep = false.
Proof.
  induction s as [|c s IH]; [done|]. simpl.
  destruct (Ascii.eqb c sep) eqn:E; [done|].
  by rewrite Contains_cons, E, IH.
Qed.

(** The field between the first two separators does not depend on what
    follows the second one. *)
Lemma secondField_between (a b rest : string) (sep : ascii) :
  Contains a sep = false -> Contains b sep = false ->
  secondField sep (a +:+ String sep (b +:+ String sep rest)) = b.
Proof.
  intros Ha Hb. unfold secondField.
  assert (Hafter : forall t, afterSep sep (a +:+ String sep t) = t).
  { intros t. induction a as [|c a IH]; simpl.
    - by rewrite Ascii.eqb_refl.
    - rewrite Contains_cons in Ha. apply orb_false_elim in Ha as [Hc Ha'].
      rewrite Hc. by apply IH. }
  rewrite Hafter. clear Hafter Ha.
  induction b as [|c b IH]; simpl.
  - by rewrite Ascii.eqb_refl.
  - rewrite Contains_cons in Hb. apply orb_false_elim in Hb as [Hc Hb'].
    rewrite Hc. f_equal. by apply IH.
Qed.

Lemma Replace_delete (s : string) (old : ascii) :
  Replace s old "" = deleteByte old s.
Proof.
  induction s as [|c s IH]; [done|]. simpl.
  destruct (Ascii.eqb c old); simpl; by rewrite IH.
Qed.

(** *** [Trim] removes what surrounds, and nothing else *)

Lemma string_app_assoc (a b c : string) : (a +:+ b) +:+ c = a +:+ (b +:+ c).
Proof. induction a as [|x a IH]; [done|]. simpl. by rewrite IH. Qed.

Lemma string_app_nil_r (a : string) : a +:+ "" = a.
Proof. induction a as [|x a IH]; [done|]. simpl. by rewrite IH. Qed.

Lemma string_snoc_not_nil (t : string) (c : ascii) : t +:+ String c "" <> "".
Proof. by destruct t. Qed.

Lemma TrimLeft_decompose (s cutset : string) :
  exists l, s = l +:+ TrimLeft s cutset /\
            forall c, inSet c l = true -> inSet c cutset = true.
Proof.
  induction s as [|a s IH]; simpl.
  - by exists "".
  - destruct (inSet a cutset) eqn:Ha; [|by exists ""].
    destruct IH as (l & Hs & Hl). exists (String a l). split.
    + simpl. by f_equal.
    + intros c. simpl. destruct (Ascii.eqb_spec c a) as [->|_]; [done|]. apply Hl.
Qed.

Lemma TrimLeft_head (s cutset : string) (c : ascii) (t : string) :
  TrimLeft s cutset = String c t -> inSet c cutset = false.
Proof.
  induction s as [|a s IH]; simpl; [done|].
  destruct (inSet a cutset) eqn:Ha; [done|]. by intros [= <- _].
Qed.

Lemma TrimRight_decompose (s cutset : string) :
  exists r, s = TrimRight s cutset +:+ r /\
            forall c, inSet c r = true -> inSet c cutset = true.
Proof.
  induction s as [|a s IH]; simpl.
  - by exists "".
  - destruct IH as (r & Hs & Hr).
    destruct (TrimRight s cutset) as [|b t] eqn:Ht.
    + simpl in Hs. subst r.
      destruct (inSet a cutset) eqn:Ha; [|by exists s].
      exists (String a s). split; [done|].
      intros c. simpl. destruct (Ascii.eqb_spec c a) as [->|_]; [done|]. apply Hr.
    + exists r. split; [|done]. simpl in *. by f_equal.
Qed.

Lemma TrimRight_last (s cutset t : string) (c : ascii) :
  TrimRight s cutset = t +:+ String c "" -> inSet c cutset = false.
Proof.
  revert t. induction s as [|a s IH]; intros t; simpl.
  - intros H. symmetry in H. by apply string_snoc_not_nil in H.
  - destruct (TrimRight s cutset) as [|b u] eqn:Hu.
    + destruct (inSet a cutset) eqn:Ha.
      * intros H. symmetry in H. by apply string_snoc_not_nil in H.
      * destruct t as [|x t]; simpl; [by intros [= <-]|].
        intros [= _ H]. symmetry in H. by apply string_snoc_not_nil in H.
    + destruct t as [|x t]; simpl; [done|].
      intros [= _ H]. by eapply IH.
Qed.

(** [Trim s cutset] is [s] without a leading and a trailing run of bytes
    of the cutset, and it neither starts nor ends with such a byte. *)
Lemma Trim_surrounding (s cutset : string) :
  (exists l r,
      s = l +:+ Trim s cutset +:+ r /\
      (forall c, inSet c l = true -> inSet c cutset = true) /\
      (forall c, inSet c r = true -> inSet c cutset = true)) /\
  (forall c t, Trim s cutset = String c t -> inSet c cutset = false) /\
  (forall c t, Trim s cutset = t +:+ String c "" -> inSet c cutset = false).
Proof.
  unfold Trim.
  destruct (TrimRight_decompose s cutset) as (r & Hs & Hr).
  destruct (TrimLeft_decompose (TrimRight s cutset) cutset) as (l & Ht & Hl).
  split; [|split].
  - exists l, r. split; [|done].
    rewrite <- string_app_assoc, <- Ht. done.
  - intros c t. apply TrimLeft_head.
  - intros c t H. apply (TrimRight_last s cutset (l +:+ t) c).
    rewrite Ht, H. by rewrite string_app_assoc.
Qed.

(** *** [TrimSpace] removes the surrounding white-space runes, and
    nothing else *)

Lemma string_length_app (a b : string) :
  String.length (a +:+ b) = (String.length a + String.length b)%nat.
Proof. induction a as [|x a IH]; [done|]. simpl. by rewrite IH. Qed.

Lemma stripPrefix_Some (p s t : string) :
  stripPrefix p s = Some t <-> s = p +:+ t.
Proof.
  revert s. induction p as [|a p IH]; intros s; simpl.
  - split; [by intros [= ->]|by intros ->].
  - destruct s as [|b s]; [done|].
    destruct (Ascii.eqb_spec a b) as [->|Hab].
    + rewrite IH. split; [by intros ->|by intros [= ->]].
    + split; [done|]. by intros [= ? _].
Qed.

Lemma stripAny_Some (runes : list string) (s t : string) :
  stripAny runes s = Some t -> exists w, In w runes /\ s = w +:+ t.
Proof.
  induction runes as [|r runes IH]; simpl; [done|].
  destruct (stripPrefix r s) as [u|] eqn:Hr.
  - intros [= ->]. exists r. split; [by left|]. by apply stripPrefix_Some.
  - intros (w & Hw & Hs)%IH. exists w. split; [by right|done].
Qed.

Lemma stripAny_None (runes : list string) (s : string) :
  stripAny runes s = None -> forall w u, In w runes -> s <> w +:+ u.
Proof.
  induction runes as [|r runes IH]; simpl; [done|].
  destruct (stripPrefix r s) as [t|] eqn:Hr; [done|].
  intros Hrest w u [<-|Hw] Hs.
  - apply stripPrefix_Some in Hs. congruence.
  - by apply (IH Hrest w u).
Qed.

Lemma isSpaceRune_In (w : string) : isSpaceRune w = true <-> In w spaceRunes.
Proof.
  unfold isSpaceRune. rewrite existsb_exists. split.
  - by intros (x & Hx & ->%String.eqb_eq).
  - intros Hw. exists w. split; [done|apply String.eqb_refl].
Qed.

Lemma stripSpaceRune_shorter (s t : string) :
  stripSpaceRune s = Some t ->
  exists w, isSpaceRune w = true /\ s = w +:+ t /\
            (String.length t < String.length s)%nat.
Proof.
  intros (w & Hw & ->)%stripAny_Some. exists w.
  split; [by apply isSpaceRune_In|]. split; [done|].
  rewrite string_length_app.
  assert (Hlen : Forall (fun r => (0 < String.length r)%nat) spaceRunes)
    by (repeat constructor).
  rewrite Forall_forall in Hlen. apply list_elem_of_In, Hlen in Hw. lia.
Qed.

Lemma trimLeftSpace_decompose (fuel : nat) (s : string) :
  exists ws, Forall (fun w => isSpaceRune w = true) ws /\
             s = fold_right String.append (trimLeftSpace fuel s) ws.
Proof.
  revert s. induction fuel as [|fuel IH]; intros s; simpl; [by exists []|].
  destruct (stripSpaceRune s) as [t|] eqn:Ht; [|by exists []].
  apply stripSpaceRune_shorter in Ht as (w & Hw & -> & _).
  destruct (IH t) as (ws & Hws & Ht). exists (w :: ws).
  split; [by constructor|]. simpl. by rewrite <- Ht.
Qed.

Lemma trimLeftSpace_done (fuel : nat) (s : string) :
  (String.length s <= fuel)%nat -> stripSpaceRune (trimLeftSpace fuel s) = None.
Proof.
  revert s. induction fuel as [|fuel IH]; intros s Hlen; simpl.
  - destruct s; [done|simpl in Hlen; lia].
  - destruct (stripSpaceRune s) as [t|] eqn:Ht; [|done].
    apply IH. apply stripSpaceRune_shorter in Ht as (w & _ & _ & Hlt). lia.
Qed.

Lemma trimRightSpace_decompose (s : string) :
  exists ws, Forall (fun w => isSpaceRune w = true) ws /\
             s = trimRightSpace s +:+ fold_right String.append "" ws.
Proof.
  induction s as [|c s IH]; [by exists []|].
  destruct IH as (ws & Hws & Hs). simpl.
  destruct (isSpaceRune (String c (trimRightSpace s))) eqn:Hc.
  - exists (String c (trimRightSpace s) :: ws). split; [by constructor|].
    simpl. by rewrite <- Hs.
  - exists ws. split; [done|]. simpl. by rewrite <- Hs.
Qed.

Lemma trimRightSpace_done (s p w : string) :
  trimRightSpace s = p +:+ w -> isSpaceRune w = false.
Proof.
  revert p. induction s as [|c s IH]; intros p; simpl.
  - destruct p; simpl; [by intros <-|done].
  - destruct (isSpaceRune (String c (trimRightSpace s))) eqn:Hc.
    + destruct p; simpl; [by intros <-|done].
    + destruct p as [|x p]; simpl; [by intros <-|].
      intros [= _ H]. by eapply IH.
Qed.

(** [TrimSpace s] is [s] without a leading and a trailing run of
    white-space runes, and it neither starts nor ends with such a rune. *)
Lemma TrimSpace_surrounding (s : string) :
  (exists ls rs,
      Forall (fun w => isSpaceRune w = true) ls /\
      Forall (fun w => isSpaceRune w = true) rs /\
      s = fold_right String.append
            (TrimSpace s +:+ fold_right String.append "" rs) ls) /\
  (forall w u, isSpaceRune w = true -> TrimSpace s <> w +:+ u) /\
  (forall p w, isSpaceRune w = true -> TrimSpace s <> p +:+ w).
Proof.
  unfold TrimSpace. set (t := trimLeftSpace (String.length s) s).
  destruct (trimLeftSpace_decompose (String.length s) s) as (ls & Hls & Hs).
  destruct (trimRightSpace_decompose t) as (rs & Hrs & Ht).
  split; [|split].
  - exists ls, rs. fold t in Hs. by rewrite <- Ht.
  - intros w u Hw Hwu.
    pose proof (trimLeftSpace_done (String.length s) s ltac:(lia)) as Hdone.
    fold t in Hdone.
    apply (stripAny_None _ _ Hdone w (u +:+ fold_right String.append "" rs)).
    + by apply isSpaceRune_In.
    + rewrite Ht at 1. rewrite Hwu. by rewrite string_app_assoc.
  - intros p w Hw Hpw. apply trimRightSpace_done in Hpw. congruence.
Qed.

End StringsFacts.

Section StrconvFacts.

Import Strconv.

(** Case analysis on every integer comparison of the goal. *)
Ltac compare_cases :=
  repeat (match goal with
          | |- context [?a <=? ?b] => destruct (Z.leb_spec a b)
          | |- context [?a <? ?b] => destruct (Z.ltb_spec a b)
          end; simpl).

Lemma digit_range (c : ascii) (d : Z) : digit c = Some d -> 0 <= d <= 9.
Proof.
  unfold digit.
  destruct (_ && _) eqn:E; [|done].
  apply andb_true_iff in E as [H1%Z.leb_le H2%Z.leb_le].
  intros [= <-]. lia.
Qed.

Lemma digitsValue_mono (s : string) (n v : Z) :
  0 <= n -> digitsValue s n = Some v -> n <= v.
Proof.
  revert n. induction s as [|c s IH]; simpl; intros n Hn.
  - intros [= <-]. lia.
  - destruct (digit c) as [d|] eqn:Hd; [|done].
    apply digit_range in Hd. intros Hv%IH; lia.
Qed.

(** The digit loop against the unbounded reading: below the 32-bit
    maximum there is no 64-bit overflow, so the loop stops exactly when
    the value leaves the 32-bit range or a byte is not a digit. *)
Lemma parseUintLoop_32 (s : string) (n : Z) :
  0 <= n <= 4294967295 ->
  match digitsValue s n with
  | Some v =>
      parseUintLoop s 4294967295 n =
        if v <=? 4294967295 then (v, None) else (4294967295, Some ErrRange)
  | None =>
      parseUintLoop s 4294967295 n = (0, Some ErrSyntax) \/
      parseUintLoop s 4294967295 n = (4294967295, Some ErrRange)
  end.
Proof.
  revert n. induction s as [|c s IH]; simpl; intros n Hn.
  - destruct (Z.leb_spec n 4294967295); [done|lia].
  - destruct (digit c) as [d|] eqn:Hd; [|by left].
    apply digit_range in Hd.
    change (maxUint64 / 10 + 1) with 1844674407370955162.
    destruct (Z.leb_spec 1844674407370955162 n); [lia|].
    change (2 ^ 64) with 18446744073709551616.
    rewrite (Z.mod_small (n * 10)) by lia.
    rewrite (Z.mod_small (n * 10 + d)) by lia.
    replace (10 * n + d) with (n * 10 + d) by lia.
    destruct (Z.ltb_spec (n * 10 + d) (n * 10)); [lia|]. simpl.
    destruct (Z.ltb_spec 4294967295 (n * 10 + d)) as [Hbig|Hsmall].
    + destruct (digitsValue s (n * 10 + d)) as [v|] eqn:Hv; [|by right].
      apply digitsValue_mono in Hv; [|lia].
      destruct (Z.leb_spec v 4294967295); [lia|done].
    + apply IH. lia.
Qed.

Lemma ParseUint10_32 (s : string) :
  s <> EmptyString ->
  match digitsValue s 0 with
  | Some v =>
      0 <= v /\
      ParseUint10 s 32 =
        if v <=? 4294967295 then (v, None) else (4294967295, Some ErrRange)
  | None =>
      ParseUint10 s 32 = (0, Some ErrSyntax) \/
      ParseUint10 s 32 = (4294967295, Some ErrRange)
  end.
Proof.
  intros Hs.
  assert (Hloop : ParseUint10 s 32 = parseUintLoop s 4294967295 0)
    by (by destruct s).
  rewrite Hloop. pose proof (parseUintLoop_32 s 0 ltac:(lia)) as H.
  destruct (digitsValue s 0) as [v|] eqn:Hv; [|done].
  split; [|done]. by apply digitsValue_mono in Hv.
Qed.

(** [ParseInt] with base 10 and 32 bits accepts exactly the decimal
    integers of the 32-bit signed range, and returns their value. *)
Lemma ParseInt10_32 (s : string) :
  match decimalInt32 s with
  | Some n => ParseInt10 s 32 = (n, None)
  | None => exists n e, ParseInt10 s 32 = (n, Some e)
  end.
Proof.
  destruct s as [|c s1]; [by eexists _, _|].
  unfold decimalInt32, decimal, ParseInt10.
  set (s := String c s1).
  destruct (Ascii.eqb_spec c "+") as [->|Hplus];
    [|destruct (Ascii.eqb_spec c "-") as [->|Hminus]]; simpl orb; cbv iota.
  - change (Ascii.eqb "+" "-") with false. cbv iota.
    destruct s1 as [|c1 s2]; [by eexists _, _|].
    pose proof (ParseUint10_32 (String c1 s2) ltac:(done)) as H.
    destruct (digitsValue (String c1 s2) 0) as [v|].
    + destruct H as [Hv ->].
      change (2 ^ (32 - 1)) with 2147483648. change (2 ^ 31) with 2147483648.
      compare_cases; solve [lia | done | by eexists _, _].
    + destruct H as [-> | ->]; by eexists _, _.
  - destruct s1 as [|c1 s2]; [by eexists _, _|].
    pose proof (ParseUint10_32 (String c1 s2) ltac:(done)) as H.
    destruct (digitsValue (String c1 s2) 0) as [v|].
    + destruct H as [Hv ->].
      change (2 ^ (32 - 1)) with 2147483648. change (2 ^ 31) with 2147483648.
      compare_cases; solve [lia | done | by eexists _, _].
    + destruct H as [-> | ->]; by eexists _, _.
  - pose proof (ParseUint10_32 s ltac:(done)) as H.
    subst s.
    destruct (digitsValue (String c s1) 0) as [v|].
    + destruct H as [Hv ->].
      change (2 ^ (32 - 1)) with 2147483648. change (2 ^ 31) with 2147483648.
      compare_cases; solve [lia | done | by eexists _, _].
    + destruct H as [-> | ->]; by eexists _, _.
Qed.

Lemma decimalInt32_range (s : string) (n : Z) :
  decimalInt32 s = Some n -> - 2 ^ 31 <= n < 2 ^ 31.
Proof.
  unfold decimalInt32. destruct (decimal s) as [v|]; [|done].
  destruct (_ && _) eqn:E; [|done].
  apply andb_true_iff in E as [H1%Z.leb_le H2%Z.ltb_lt].
  intros [= <-]. lia.
Qed.

Lemma int32_id (n : Z) : - 2 ^ 31 <= n < 2 ^ 31 -> int32 n = n.
Proof.
  intros H. unfold int32.
  change (2 ^ 31) with 2147483648 in *. change (2 ^ 32) with 4294967296.
  rewrite Z.mod_small; lia.
Qed.

End StrconvFacts.

(** * Facts about the loops of [main] *)

Section LoopFacts.

Lemma forRange_app {A S : Type} (body : S -> A -> outcome S) (xs ys : list A) (acc : S) :
  forRange body (xs ++ ys) acc = (acc' ← forRange body xs acc; forRange body ys acc').
Proof.
  revert acc. induction xs as [|x xs IH]; intros acc; [done|]. simpl.
  destruct (body acc x); simpl; [apply IH|done|done].
Qed.

(** Lines 107-113 never index out of range. *)
Lemma portText_field (raw : string) : portText raw = Ok (portField raw).
Proof.
  unfold portText, portField, index.
  set (cleaned := Strings.TrimSpace _).
  rewrite Split_lookup_1. by destruct (Strings.Contains cleaned ":").
Qed.

Lemma portBody_rule (name : string) (ports : list ContainerPort) (raw : string) :
  portBody name ports raw = portRule name ports raw.
Proof.
  unfold portBody, portRule. rewrite portText_field. simpl.
  pose proof (ParseInt10_32 (portField raw)) as H.
  destruct (decimalInt32 (portField raw)) as [n|] eqn:Hn.
  - rewrite H. by rewrite int32_id by by apply decimalInt32_range in Hn.
  - by destruct H as (n & e & ->).
Qed.

Lemma ports_loop (name : string) (raws : list string) (acc : list ContainerPort) :
  forRange (portBody name) raws acc =
    (ports ← portsRule name raws; Ok (acc ++ ports)).
Proof.
  revert acc. induction raws as [|raw raws IH]; intros acc; simpl.
  - by rewrite app_nil_r.
  - rewrite portBody_rule. unfold portRule.
    destruct (decimalInt32 (portField raw)) as [n|]; [|done]. simpl.
    rewrite IH. destruct (portsRule name raws); simpl; [|done|done].
    by rewrite <- app_assoc.
Qed.

Lemma envBody_rule (envs : list EnvVar) (env : string) :
  envBody envs env = Ok (envs ++ envRule env).
Proof.
  unfold envBody, envRule, index.
  rewrite Split_lookup_0, Split_lookup_1.
  destruct (Strings.Contains env "="); simpl; [done|].
  by rewrite app_nil_r.
Qed.

Lemma env_loop (envs : list string) (acc : list EnvVar) :
  forRange envBody envs acc = Ok (acc ++ flat_map envRule envs).
Proof.
  revert acc. induction envs as [|env envs IH]; intros acc; simpl.
  - by rewrite app_nil_r.
  - rewrite envBody_rule. simpl. rewrite IH. by rewrite <- app_assoc.
Qed.

End LoopFacts.

Section VolumeFacts.

Lemma last_cons {A : Type} (a d : A) (l : list A) :
  List.last (a :: l) d = List.last l a.
Proof.
  revert a d. induction l as [|b l IH]; intros a d; [done|].
  change (List.last (a :: b :: l) d) with (List.last (b :: l) d).
  by rewrite !IH.
Qed.

Lemma readOnlyBody_mode (b : bool) (opt : string) :
  readOnlyBody b opt = if isMode opt then String.eqb opt "ro" else b.
Proof.
  unfold readOnlyBody, isMode.
  destruct (String.eqb opt "ro"); [done|].
  by destruct (String.eqb opt "rw").
Qed.

(** The scan of the options keeps the last mode token it has met. *)
Lemma readOnly_scan (opts : list string) (b : bool) :
  fold_left readOnlyBody opts b =
    match filter (fun opt => isMode opt = true) opts with
    | [] => b
    | m :: ms => String.eqb (List.last ms m) "ro"
    end.
Proof.
  revert b. induction opts as [|opt opts IH]; intros b; [done|].
  simpl. rewrite IH, readOnlyBody_mode, filter_cons.
  destruct (isMode opt) eqn:Hmode.
  - rewrite decide_True by done.
    destruct (filter _ opts) as [|m ms]; [done|].
    by rewrite last_cons.
  - rewrite decide_False by done. done.
Qed.

Lemma volumeBody_rule (volumemounts : list VolumeMount) (volumes : list Volume)
    (volumestr : string) :
  volumeBody (volumemounts, volumes) volumestr =
    if Strings.Contains volumestr ":"
    then Ok (volumemounts ++ [mountRule volumestr], volumes ++ [volumeRule volumestr])
    else Panic.
Proof.
  unfold volumeBody, index.
  rewrite Split_lookup_0, Split_lookup_1.
  destruct (Strings.Contains volumestr ":") eqn:Hc; simpl; [|done].
  rewrite Replace_delete. unfold mountRule, volumeRule.
  assert (Hro : (if (2 <? length (Strings.Split volumestr ":"))%nat
                 then fold_left readOnlyBody (drop 2 (Strings.Split volumestr ":")) false
                 else false)
                = readOnlyRule (drop 2 (Strings.Split volumestr ":"))).
  { unfold readOnlyRule. destruct (Nat.ltb_spec 2 (length (Strings.Split volumestr ":"))).
    - apply readOnly_scan.
    - rewrite drop_ge by lia. done. }
  rewrite Hro. by destruct (_ <? _)%nat.
Qed.

Lemma volume_loop (vols : list string) (volumemounts : list VolumeMount)
    (volumes : list Volume) :
  forRange volumeBody vols (volumemounts, volumes) =
    if forallb (fun v => Strings.Contains v ":") vols
    then Ok (volumemounts ++ map mountRule vols, volumes ++ map volumeRule vols)
    else Panic.
Proof.
  revert volumemounts volumes.
  induction vols as [|v vols IH]; intros volumemounts volumes.
  - simpl. by rewrite !app_nil_r.
  - cbn [forRange forallb map]. rewrite volumeBody_rule.
    destruct (Strings.Contains v ":"); simpl; [|done].
    rewrite IH. destruct (forallb _ vols); [|done].
    by rewrite <- !app_assoc.
Qed.

End VolumeFacts.

Section TranslateFacts.

Lemma restartRule_cases (restart : string) :
  restartRule restart =
    if String.eqb restart "" || String.eqb restart "always"
    then Some RestartPolicyAlways
    else if String.eqb restart "no" then Some RestartPolicyNever
    else if String.eqb restart "on-failure" then Some RestartPolicyOnFailure
    else None.
Proof.
  unfold restartRule, restartTable. simpl.
  rewrite !lookup_insert, lookup_empty.
  destruct (String.eqb_spec restart "") as [->|H1]; [done|].
  destruct (String.eqb_spec restart "always") as [->|H2]; [done|].
  destruct (String.eqb_spec restart "no") as [->|H3]; [done|].
  destruct (String.eqb_spec restart "on-failure") as [->|H4]; [done|].
  simpl. repeat case_decide; congruence.
Qed.

Lemma restartPolicy_rule (name : string) (service : ServiceConfig) (rs : ReplicaSet) :
  restartPolicy name service rs =
    match restartRule (Restart service) with
    | Some policy => Ok (setRestartPolicy policy rs)
    | None => Fatal (UnknownRestartPolicy (Restart service) name)
    end.
Proof.
  unfold restartPolicy. rewrite restartRule_cases.
  destruct (_ || _); [done|].
  destruct (String.eqb (Restart service) "no"); [done|].
  by destruct (String.eqb (Restart service) "on-failure").
Qed.

(** The program computes the translation the rules describe: same
    descriptor, same diagnostic, same panic. *)
Lemma translate_rule (name : string) (service : ServiceConfig) :
  translate name service = translateRule name service.
Proof.
  unfold translate, translateRule.
  rewrite ports_loop. destruct (portsRule name (Ports service)) as [ports| |]; simpl; [|done|done].
  rewrite env_loop. simpl.
  rewrite volume_loop. destruct (forallb _ (Volumes service)); simpl; [|done].
  rewrite restartPolicy_rule.
  by destruct (restartRule (Restart service)).
Qed.

Lemma restartKnown_rule (restart : string) :
  restartKnown restart =
    match restartRule restart with Some _ => true | None => false end.
Proof.
  rewrite restartRule_cases. unfold restartKnown.
  destruct (String.eqb restart ""); [done|].
  destruct (String.eqb restart "always"); [done|].
  destruct (String.eqb restart "no"); [done|].
  by destruct (String.eqb restart "on-failure").
Qed.

Lemma portsRule_parses (name : string) (raws : list string) :
  match portsRule name raws with
  | Ok ports => forallb portParses raws = true
  | Fatal msg =>
      forallb portParses raws = false /\
      exists raw, raw ∈ raws /\ portParses raw = false /\
                  msg = InvalidPort (portField raw) name
  | Panic => False
  end.
Proof.
  induction raws as [|raw raws IH]; [done|].
  cbn [portsRule forallb]. unfold portParses at 1 3.
  destruct (decimalInt32 (portField raw)) as [n|] eqn:Hn.
  - destruct (portsRule name raws) as [ports|msg|]; simpl; [done| |done].
    destruct IH as (Hall & raw' & Hin & Hbad & ->).
    split; [done|]. exists raw'. split; [by right|done].
  - split; [done|]. exists raw. split; [by left|].
    unfold portParses. by rewrite Hn.
Qed.

End TranslateFacts.

(** * The claims *)

Section PortClaims.

(** C1, as stated, fails: on the port string made of a space, a quote,
    [53], a quote and a space the quotes are stripped first, when they
    are not yet at the ends, so they stay in place and the service ends
    with the invalid-port diagnostic instead of port 53. *)
Lemma port_padded_outside_quotes_rejected :
  portBody "web" [] padded53 = Fatal (InvalidPort bare53 "web") /\
  portBody "web" [] padded53 <> Ok [ {| ContainerPort_ContainerPort := 53 |} ].
Proof. split; [by vm_compute|]. by vm_compute. Qed.

(** C1, amended: for every raw port string the port mapping strips
    surrounding double quotes, then surrounding white space, then takes
    the second colon-separated field if a colon is present, and reads
    the result as a base-10 32-bit signed integer, ending the service
    with the invalid-port diagnostic when it is none.  [8080:80] and
    [80] give 80; padding inside the quotes gives 53; padding outside
    the quotes and [abc] give the invalid-port diagnostic. *)
Theorem port_mapping :
  (forall name ports raw, portBody name ports raw = portRule name ports raw) /\
  (forall name ports,
      portBody name ports "8080:80" = Ok (ports ++ [ {| ContainerPort_ContainerPort := 80 |} ]) /\
      portBody name ports "80" = Ok (ports ++ [ {| ContainerPort_ContainerPort := 80 |} ]) /\
      portBody name ports quoted53 = Ok (ports ++ [ {| ContainerPort_ContainerPort := 53 |} ]) /\
      portBody name ports padded53 = Fatal (InvalidPort bare53 name) /\
      portBody name ports "abc" = Fatal (InvalidPort "abc" name)).
Proof.
  split; [apply portBody_rule|].
  intros name ports. rewrite !portBody_rule. by repeat split.
Qed.

(** C9: when the cleaned port string contains a colon, the text handed
    to the integer parser is the second field of the full split, that
    is the text between the first and the second colon; what follows
    the second colon is ignored. *)
Theorem port_second_field (name : string) (ports : list ContainerPort) (raw : string) :
  let cleaned := Strings.TrimSpace (Strings.Trim raw quoteCutset) in
  Strings.Contains cleaned ":" = true ->
  Strings.Split cleaned ":" !! 1%nat = Some (secondField ":" cleaned) /\
  portText raw = Ok (secondField ":" cleaned) /\
  portBody name ports raw =
    match decimalInt32 (secondField ":" cleaned) with
    | Some n => Ok (ports ++ [ {| ContainerPort_ContainerPort := n |} ])
    | None => Fatal (InvalidPort (secondField ":" cleaned) name)
    end /\
  (forall a b rest,
      cleaned = a +:+ String ":" (b +:+ String ":" rest) ->
      Strings.Contains a ":" = false -> Strings.Contains b ":" = false ->
      secondField ":" cleaned = b).
Proof.
  intros cleaned Hc.
  assert (Hfield : portField raw = secondField ":" cleaned).
  { unfold portField. fold cleaned. by rewrite Hc. }
  repeat split.
  - by rewrite Split_lookup_1, Hc.
  - by rewrite portText_field, Hfield.
  - rewrite portBody_rule. unfold portRule. by rewrite Hfield.
  - intros a b rest -> Ha Hb. by apply secondField_between.
Qed.

Lemma port_second_field_witness :
  portBody "web" [] "a:b:c" = Fatal (InvalidPort "b" "web") /\
  portBody "web" [] "1:2:3" = Ok [ {| ContainerPort_ContainerPort := 2 |} ].
Proof.
  split.
  - apply (port_second_field "web" [] "a:b:c"). reflexivity.
  - apply (port_second_field "web" [] "1:2:3"). reflexivity.
Defined.

End PortClaims.

Section EnvClaims.

(** C2: an entry with an equals sign appends the pair made of the first
    and the second field of its split on the equals sign (so a value
    that contains an equals sign is cut there); an entry without one is
    dropped with no error and leaves the list as it is; the kept
    entries stay in source order. *)
Theorem env_mapping :
  (forall envs env,
      envBody envs env =
        Ok (if Strings.Contains env "="
            then envs ++ [ {| EnvVar_Name := untilSep "=" env;
                              EnvVar_Value := secondField "=" env |} ]
            else envs)) /\
  (forall env,
      Strings.Split env "=" !! 0%nat = Some (untilSep "=" env) /\
      Strings.Split env "=" !! 1%nat =
        if Strings.Contains env "=" then Some (secondField "=" env) else None) /\
  (forall envs acc, forRange envBody envs acc = Ok (acc ++ flat_map envRule envs)) /\
  (forall envs,
      envBody envs "KEY=VALUE" =
        Ok (envs ++ [ {| EnvVar_Name := "KEY"; EnvVar_Value := "VALUE" |} ]) /\
      envBody envs "KEY=A=B" =
        Ok (envs ++ [ {| EnvVar_Name := "KEY"; EnvVar_Value := "A" |} ]) /\
      envBody envs "NOEQUALS" = Ok envs) /\
  (forall name service,
      match translate name service with
      | Ok d =>
          exists c, PodSpec_Containers (podSpec d) = [c] /\
                    Container_Env c = flat_map envRule (Environment service)
      | Fatal _ | Panic => True
      end).
Proof.
  split; [|split; [|split; [|split]]].
  - intros envs env. rewrite envBody_rule. unfold envRule.
    destruct (Strings.Contains env "="); [done|]. by rewrite app_nil_r.
  - intros env. by rewrite Split_lookup_0, Split_lookup_1.
  - apply env_loop.
  - done.
  - intros name service. rewrite translate_rule. unfold translateRule.
    destruct (portsRule name (Ports service)); simpl; [|done|done].
    destruct (forallb _ _); [|done].
    destruct (restartRule _); [|done]. by eexists.
Qed.

(** C10: an entry that begins with an equals sign is kept; its key is
    the empty string and its value the text between the first and the
    second equals sign (up to the end when there is no second one). *)
Theorem env_leading_equals :
  (forall envs rest,
      envBody envs (String "=" rest) =
        Ok (envs ++ [ {| EnvVar_Name := ""; EnvVar_Value := untilSep "=" rest |} ])) /\
  (forall envs,
      envBody envs "=VALUE" = Ok (envs ++ [ {| EnvVar_Name := ""; EnvVar_Value := "VALUE" |} ]) /\
      envBody envs "=A=B" = Ok (envs ++ [ {| EnvVar_Name := ""; EnvVar_Value := "A" |} ])).
Proof.
  split; [|done].
  intros envs rest. by rewrite envBody_rule.
Qed.

End EnvClaims.

Section RestartClaims.

(** C3: the restart mapping is the exact, case-sensitive finite table:
    the empty string and [always] give Always, [no] gives Never,
    [on-failure] gives OnFailure, and every other value ends the
    service with the unknown-restart-policy diagnostic that names the
    value and the service; a descriptor that is produced carries the
    policy of the table. *)
Theorem restart_policy_mapping (name : string) (service : ServiceConfig) :
  (forall rs,
      (Restart service = "" \/ Restart service = "always") /\
        restartPolicy name service rs = Ok (setRestartPolicy RestartPolicyAlways rs)
      \/ Restart service = "no" /\
        restartPolicy name service rs = Ok (setRestartPolicy RestartPolicyNever rs)
      \/ Restart service = "on-failure" /\
        restartPolicy name service rs = Ok (setRestartPolicy RestartPolicyOnFailure rs)
      \/ (Restart service <> "" /\ Restart service <> "always" /\
          Restart service <> "no" /\ Restart service <> "on-failure") /\
        restartPolicy name service rs =
          Fatal (UnknownRestartPolicy (Restart service) name)) /\
  match translate name service with
  | Ok d =>
      restartRule (Restart service) = Some (PodSpec_RestartPolicy (podSpec d)) /\
      PodSpec_RestartPolicy (podSpec d) ∈
        [RestartPolicyAlways; RestartPolicyNever; RestartPolicyOnFailure]
  | Fatal _ | Panic => True
  end /\
  translate name (sampleService [] [] [] "Always") =
    Fatal (UnknownRestartPolicy "Always" name).
Proof.
  split; [|split; [|done]].
  - intros rs. unfold restartPolicy.
    destruct (String.eqb_spec (Restart service) "") as [H1|H1]; [by left; split; [left|]|].
    destruct (String.eqb_spec (Restart service) "always") as [H2|H2];
      [by left; split; [right|]|].
    destruct (String.eqb_spec (Restart service) "no") as [H3|H3];
      [by right; left|].
    destruct (String.eqb_spec (Restart service) "on-failure") as [H4|H4];
      [by right; right; left|].
    by right; right; right.
  - rewrite translate_rule. unfold translateRule.
    destruct (portsRule name (Ports service)); simpl; [|done|done].
    destruct (forallb _ _); [|done].
    destruct (restartRule (Restart service)) as [p|] eqn:Hp; [|done].
    split; [done|]. simpl.
    rewrite restartRule_cases in Hp.
    destruct (_ || _); [injection Hp as <-; set_solver|].
    destruct (String.eqb (Restart service) "no"); [injection Hp as <-; set_solver|].
    destruct (String.eqb (Restart service) "on-failure"); [injection Hp as <-; set_solver|].
    done.
Qed.

End RestartClaims.

Section VolumeClaims.

Lemma readOnlyRule_scan (opts : list string) :
  readOnlyRule opts = fold_left readOnlyBody opts false.
Proof. unfold readOnlyRule. by rewrite readOnly_scan. Qed.

(** C5: with at least two parts the entry is accepted and [readOnly]
    starts as false; the parts from index 2 on are scanned, [ro] sets it,
    [rw] clears it, any other token leaves it alone, so the last mode
    token decides. *)
Theorem volume_read_only (volumemounts : list VolumeMount) (volumes : list Volume)
    (volumestr : string) :
  (2 <= length (Strings.Split volumestr ":"))%nat ->
  volumeBody (volumemounts, volumes) volumestr =
    Ok (volumemounts ++ [mountRule volumestr], volumes ++ [volumeRule volumestr]) /\
  VolumeMount_ReadOnly (mountRule volumestr) =
    readOnlyRule (drop 2 (Strings.Split volumestr ":")) /\
  readOnlyRule [] = false /\
  (forall opts opt,
      readOnlyRule (opts ++ [opt]) =
        if String.eqb opt "ro" then true
        else if String.eqb opt "rw" then false
        else readOnlyRule opts) /\
  VolumeMount_ReadOnly (mountRule "/a:/b") = false /\
  VolumeMount_ReadOnly (mountRule "/a:/b:ro") = true /\
  VolumeMount_ReadOnly (mountRule "/a:/b:rw") = false /\
  VolumeMount_ReadOnly (mountRule "/a:/b:ro:rw") = false /\
  VolumeMount_ReadOnly (mountRule "/a:/b:z:ro:nocopy") = true.
Proof.
  intros Hparts%Split_length.
  split; [|split; [done|split; [done|split; [|done]]]].
  - by rewrite volumeBody_rule, Hparts.
  - intros opts opt. rewrite !readOnlyRule_scan, fold_left_app. done.
Qed.

Lemma volume_read_only_witness :
  volumeBody ([], []) "/a:/b:ro:rw" =
    Ok ([ {| VolumeMount_Name := "a"; VolumeMount_ReadOnly := false;
             VolumeMount_MountPath := "/b" |} ],
        [ {| Volume_Name := "a";
             Volume_VolumeSource :=
               {| VolumeSource_HostPath :=
                    Some {| HostPathVolumeSource_Path := "/a" |} |} |} ]).
Proof.
  apply (volume_read_only [] [] "/a:/b:ro:rw"). simpl. lia.
Defined.

(** C4: in a descriptor that is produced, the volume and the volume
    mount at every index carry the same name, which is the host path of
    the source entry at that index with every slash deleted; the volume
    carries the host path and the mount the container path; both lists
    follow the order of the source list. *)
Theorem volume_name_join (name : string) (service : ServiceConfig) (d : ReplicaSet)
    (i : nat) :
  translate name service = Ok d ->
  exists c,
    PodSpec_Containers (podSpec d) = [c] /\
    match Volumes service !! i with
    | Some v =>
        let hostPath := untilSep ":" v in
        let containerPath := secondField ":" v in
        Strings.Split v ":" !! 0%nat = Some hostPath /\
        Strings.Split v ":" !! 1%nat = Some containerPath /\
        PodSpec_Volumes (podSpec d) !! i =
          Some {| Volume_Name := deleteByte "/" hostPath;
                  Volume_VolumeSource :=
                    {| VolumeSource_HostPath :=
                         Some {| HostPathVolumeSource_Path := hostPath |} |} |} /\
        exists readOnly,
          Container_VolumeMounts c !! i =
            Some {| VolumeMount_Name := deleteByte "/" hostPath;
                    VolumeMount_ReadOnly := readOnly;
                    VolumeMount_MountPath := containerPath |}
    | None =>
        PodSpec_Volumes (podSpec d) !! i = None /\
        Container_VolumeMounts c !! i = None
    end.
Proof.
  rewrite translate_rule. unfold translateRule.
  destruct (portsRule name (Ports service)) as [ports| |]; simpl; [|done|done].
  destruct (forallb _ _) eqn:Hall; [|done].
  destruct (restartRule _) as [p|]; [|done].
  intros [= <-]. eexists. split; [done|]. simpl.
  rewrite !list_lookup_fmap.
  destruct (Volumes service !! i) as [v|] eqn:Hv; simpl; [|done].
  assert (Hc : Strings.Contains v ":" = true).
  { rewrite forallb_forall in Hall. apply Hall.
    apply list_elem_of_In. by eapply list_elem_of_lookup_2. }
  rewrite Split_lookup_0, Split_lookup_1, Hc.
  repeat split. by eexists.
Qed.

Lemma volume_name_join_witness :
  translate "db" database = Ok databaseDescriptor /\
  exists c,
    PodSpec_Containers (podSpec databaseDescriptor) = [c] /\
    (Strings.Split "/data/db:/var/lib/db" ":" !! 0%nat = Some "/data/db" /\
     Strings.Split "/data/db:/var/lib/db" ":" !! 1%nat = Some "/var/lib/db" /\
     PodSpec_Volumes (podSpec databaseDescriptor) !! 0%nat =
       Some {| Volume_Name := "datadb";
               Volume_VolumeSource :=
                 {| VolumeSource_HostPath :=
                      Some {| HostPathVolumeSource_Path := "/data/db" |} |} |} /\
     exists readOnly,
       Container_VolumeMounts c !! 0%nat =
         Some {| VolumeMount_Name := "datadb";
                 VolumeMount_ReadOnly := readOnly;
                 VolumeMount_MountPath := "/var/lib/db" |}).
Proof.
  split; [reflexivity|].
  exact (volume_name_join "db" database databaseDescriptor 0%nat eq_refl).
Defined.

(** C8: the program does not check the number of parts before it reads
    the second one: for the volume [/data], whose split on the colon has
    one part, the loop body and the whole translation end in an
    index-out-of-range panic, not in a diagnostic. *)
Theorem volume_single_part_panics :
  length (Strings.Split "/data" ":") = 1%nat /\
  volumeBody ([], []) "/data" = Panic /\
  translate "web" dataOnly = Panic /\
  (forall msg, translate "web" dataOnly <> Fatal msg).
Proof. by repeat split. Qed.

End VolumeClaims.

Section DescriptorClaims.

(** C6: whatever the fields of the service hold, a descriptor that is
    produced has the single label [service] bound to the service name
    (on the replica set and on its pod template), the constant replica
    count 1, and exactly one container, named after the service, with
    the image and the command of the service unchanged. *)
Theorem descriptor_skeleton (name : string) (service : ServiceConfig) (d : ReplicaSet) :
  translate name service = Ok d ->
  ObjectMeta_Name (ReplicaSet_ObjectMeta d) = name /\
  ObjectMeta_Labels (ReplicaSet_ObjectMeta d) = {[ "service" := name ]} /\
  ObjectMeta_Labels
    (PodTemplateSpec_ObjectMeta (ReplicaSetSpec_Template (ReplicaSet_Spec d))) =
    {[ "service" := name ]} /\
  ReplicaSetSpec_Replicas (ReplicaSet_Spec d) = 1 /\
  exists c,
    PodSpec_Containers (podSpec d) = [c] /\
    Container_Name c = name /\
    Container_Image c = Image service /\
    Container_Command c = Command service.
Proof.
  rewrite translate_rule. unfold translateRule.
  destruct (portsRule name (Ports service)) as [ports| |]; simpl; [|done|done].
  destruct (forallb _ _); [|done].
  destruct (restartRule _) as [p|]; [|done].
  intros [= <-]. repeat split. by eexists.
Qed.

Lemma descriptor_skeleton_witness :
  translate "web" web = Ok webDescriptor /\
  ReplicaSetSpec_Replicas (ReplicaSet_Spec webDescriptor) = 1 /\
  exists c,
    PodSpec_Containers (podSpec webDescriptor) = [c] /\
    Container_Name c = "web" /\
    Container_Image c = "nginx" /\
    Container_Command c = ["nginx"; "-g"].
Proof.
  split; [reflexivity|].
  pose proof (descriptor_skeleton "web" web webDescriptor eq_refl) as H.
  split; [apply H|apply H].
Defined.

(** The first port entry that is no 32-bit decimal integer decides. *)
Lemma portsRule_first_failure (name : string) (raws : list string) :
  match list_find (fun raw => decimalInt32 (portField raw) = None) raws with
  | Some (_, raw) => portsRule name raws = Fatal (InvalidPort (portField raw) name)
  | None => exists ports, portsRule name raws = Ok ports /\ length ports = length raws
  end.
Proof.
  induction raws as [|raw raws IH]; [by eexists|].
  cbn [list_find portsRule]. case_decide as Hraw.
  - by rewrite Hraw.
  - destruct (decimalInt32 (portField raw)) as [n|]; [|done].
    destruct (list_find _ raws) as [[i raw']|]; simpl.
    + by rewrite IH.
    + destruct IH as (ports & -> & Hlen). eexists. split; [done|].
      simpl. by rewrite Hlen.
Qed.

Variable MarshalIndent : ReplicaSet -> string + string.
Variable Join : string -> string -> string.
Variable WriteFile : string -> string -> option string.
Variable outputDir : string.

(** C7: in a descriptor that is produced, the volume mounts, the
    volumes and the source volumes are equally many, and so are the
    ports and the source ports; a port entry that does not parse never
    shortens the port list: the first such entry ends the translation
    with the invalid-port diagnostic, and with it the whole run, before
    anything is written for this or any later service.  The volume loop
    does produce these lists: when every volume entry has a colon it
    ends normally with one mount and one volume per source entry (and
    panics otherwise), and a descriptor is produced whenever all ports
    resolve, all volumes have a colon and the restart value is known. *)
Theorem count_invariant (ServiceConfigs : gmap string ServiceConfig)
    (name : string) (service : ServiceConfig) (keys : list string) (w : world) :
  ServiceConfigs !! name = Some service ->
  match translate name service with
  | Ok d =>
      exists c,
        PodSpec_Containers (podSpec d) = [c] /\
        length (Container_VolumeMounts c) = length (Volumes service) /\
        length (PodSpec_Volumes (podSpec d)) = length (Volumes service) /\
        length (Container_Ports c) = length (Ports service)
  | Fatal msg =>
      mainLoop MarshalIndent Join WriteFile outputDir ServiceConfigs (name :: keys) w
        = (w, Fatal msg)
  | Panic =>
      mainLoop MarshalIndent Join WriteFile outputDir ServiceConfigs (name :: keys) w
        = (w, Panic)
  end /\
  match list_find (fun raw => decimalInt32 (portField raw) = None) (Ports service) with
  | Some (_, raw) =>
      translate name service = Fatal (InvalidPort (portField raw) name) /\
      mainLoop MarshalIndent Join WriteFile outputDir ServiceConfigs (name :: keys) w
        = (w, Fatal (InvalidPort (portField raw) name))
  | None =>
      exists ports,
        forRange (portBody name) (Ports service) [] = Ok ports /\
        length ports = length (Ports service)
  end /\
  (if forallb hasColon (Volumes service)
   then exists volumemounts volumes,
          forRange volumeBody (Volumes service) ([], []) = Ok (volumemounts, volumes) /\
          length volumemounts = length (Volumes service) /\
          length volumes = length (Volumes service)
   else forRange volumeBody (Volumes service) ([], []) = Panic) /\
  (if forallb portParses (Ports service) && forallb hasColon (Volumes service) &&
      restartKnown (Restart service)
   then exists d, translate name service = Ok d
   else succeeded (translate name service) = false).
Proof.
  intros Hget.
  assert (Hloop : forall r,
    translate name service = r ->
    match r with
    | Ok _ => True
    | Fatal msg =>
        mainLoop MarshalIndent Join WriteFile outputDir ServiceConfigs (name :: keys) w
          = (w, Fatal msg)
    | Panic =>
        mainLoop MarshalIndent Join WriteFile outputDir ServiceConfigs (name :: keys) w
          = (w, Panic)
    end).
  { intros r Hr. cbn [mainLoop]. unfold serviceBody. rewrite Hget, Hr.
    by destruct r. }
  pose proof (portsRule_first_failure name (Ports service)) as Hports.
  split; [|split; [|split]].
  - specialize (Hloop _ eq_refl).
    destruct (translate name service) as [d| |] eqn:Ht; [|done|done].
    rewrite translate_rule in Ht. unfold translateRule in Ht.
    destruct (list_find _ (Ports service)) as [[i raw]|].
    { by rewrite Hports in Ht. }
    destruct Hports as (ports & Hp & Hlen). rewrite Hp in Ht. simpl in Ht.
    destruct (forallb _ _); [|done].
    destruct (restartRule _) as [p|]; [|done].
    injection Ht as <-. eexists. split; [done|]. simpl.
    by rewrite !length_map.
  - destruct (list_find _ (Ports service)) as [[i raw]|].
    + assert (Ht : translate name service = Fatal (InvalidPort (portField raw) name)).
      { rewrite translate_rule. unfold translateRule. by rewrite Hports. }
      split; [done|]. apply (Hloop _ Ht).
    + destruct Hports as (ports & Hp & Hlen). exists ports.
      rewrite ports_loop, Hp. done.
  - rewrite volume_loop.
    change (forallb hasColon (Volumes service))
      with (forallb (fun v => Strings.Contains v ":") (Volumes service)).
    destruct (forallb _ (Volumes service)); [|done].
    eexists _, _. split; [done|]. simpl. by rewrite !length_map.
  - rewrite translate_rule. unfold translateRule.
    pose proof (portsRule_parses name (Ports service)) as Hparse.
    change (forallb hasColon (Volumes service))
      with (forallb (fun v => Strings.Contains v ":") (Volumes service)).
    destruct (portsRule name (Ports service)) as [ports|msg|]; simpl; [| |done].
    + rewrite Hparse, restartKnown_rule. simpl.
      destruct (forallb _ (Volumes service)); [|done].
      destruct (restartRule (Restart service)); [by eexists|done].
    + by destruct Hparse as [-> _].
Qed.

End DescriptorClaims.

Section RunSamples.

Lemma count_invariant_witness :
  (translate "db" database = Ok databaseDescriptor /\
   (exists c,
       PodSpec_Containers (podSpec databaseDescriptor) = [c] /\
       length (Container_VolumeMounts c) = 2%nat /\
       length (PodSpec_Volumes (podSpec databaseDescriptor)) = 2%nat /\
       length (Container_Ports c) = 1%nat) /\
   (exists volumemounts volumes,
       forRange volumeBody ["/data/db:/var/lib/db"; "/etc/conf:/conf:ro"] ([], [])
         = Ok (volumemounts, volumes) /\
       length volumemounts = 2%nat /\
       length volumes = 2%nat) /\
   (exists d, translate "db" database = Ok d)) /\
  translate "bad" badPort = Fatal (InvalidPort "notanumber" "bad") /\
  mainLoop (fun _ => inl "{}") (fun dir file => dir +:+ "/" +:+ file)
    (fun _ _ => None) "output" sampleConfigs ["bad"; "web"]
    {| files := []; stdout := [] |}
  = ({| files := []; stdout := [] |}, Fatal (InvalidPort "notanumber" "bad")).
Proof.
  split.
  - pose proof (count_invariant (fun _ => inl "{}") (fun dir file => dir +:+ "/" +:+ file)
      (fun _ _ => None) "output" {[ "db" := database ]} "db" database []
      {| files := []; stdout := [] |} eq_refl) as (Hcount & _ & Hloop & Hsome).
    split; [reflexivity|]. split; [exact Hcount|]. split; [exact Hloop|exact Hsome].
  - pose proof (count_invariant (fun _ => inl "{}") (fun dir file => dir +:+ "/" +:+ file)
      (fun _ _ => None) "output" sampleConfigs "bad" badPort ["web"]
      {| files := []; stdout := [] |} eq_refl) as (_ & H & _).
    exact H.
Defined.

End RunSamples.

(** * Further properties of the translation *)

Section TranslateOutcome.

(** A service translates exactly when every port entry resolves to a
    32-bit decimal integer, every volume entry has a colon and the restart
    value is one of the four the switch knows; the environment plays no
    part. *)
Theorem translate_succeeds_iff (name : string) (service : ServiceConfig) :
  succeeded (translate name service) =
    forallb portParses (Ports service) &&
    forallb hasColon (Volumes service) &&
    restartKnown (Restart service).
Proof.
  rewrite translate_rule. unfold translateRule.
  pose proof (portsRule_parses name (Ports service)) as Hp.
  destruct (portsRule name (Ports service)) as [ports|msg|]; simpl; [| |done].
  - rewrite Hp, restartKnown_rule. simpl.
    change (forallb hasColon (Volumes service))
      with (forallb (fun v => Strings.Contains v ":") (Volumes service)).
    destruct (forallb _ (Volumes service)); [|done].
    by destruct (restartRule (Restart service)).
  - by destruct Hp as [-> _].
Qed.

(** The only panic of a translation is the read of the second part of a
    volume entry that has none: it happens exactly when all ports resolve
    and some volume entry has no colon.  In particular the assignments to
    [Containers[0]] never panic. *)
Theorem translate_panics_iff (name : string) (service : ServiceConfig) :
  translate name service = Panic <->
  forallb portParses (Ports service) = true /\
  forallb hasColon (Volumes service) = false.
Proof.
  rewrite translate_rule. unfold translateRule.
  pose proof (portsRule_parses name (Ports service)) as Hp.
  change (forallb hasColon (Volumes service))
    with (forallb (fun v => Strings.Contains v ":") (Volumes service)).
  destruct (portsRule name (Ports service)) as [ports|msg|]; simpl; [| |done].
  - destruct (forallb _ (Volumes service)).
    + destruct (restartRule (Restart service)); split; try done; by intros [_ ?].
    + done.
  - destruct Hp as [-> _]. split; [done|]. by intros [? _].
Qed.

(** A translation ends with one of two diagnostics only: the invalid-port
    one for a port entry of the service that does not resolve, or, when
    all ports resolve and all volumes have a colon, the unknown-restart
    one. *)
Theorem translate_fatal_cases (name : string) (service : ServiceConfig) (msg : string) :
  translate name service = Fatal msg ->
  (exists raw, raw ∈ Ports service /\ portParses raw = false /\
               msg = InvalidPort (portField raw) name) \/
  (forallb portParses (Ports service) = true /\
   forallb hasColon (Volumes service) = true /\
   restartKnown (Restart service) = false /\
   msg = UnknownRestartPolicy (Restart service) name).
Proof.
  rewrite translate_rule. unfold translateRule.
  pose proof (portsRule_parses name (Ports service)) as Hp.
  change (forallb hasColon (Volumes service))
    with (forallb (fun v => Strings.Contains v ":") (Volumes service)).
  destruct (portsRule name (Ports service)) as [ports|msg'|]; simpl; [| |done].
  - destruct (forallb _ (Volumes service)); [|done].
    rewrite restartKnown_rule.
    destruct (restartRule (Restart service)); [done|].
    intros [= <-]. by right.
  - intros [= <-]. left. by destruct Hp as [_ H].
Qed.

Lemma translate_fatal_cases_witness :
  translate "bad" badPort = Fatal (InvalidPort "notanumber" "bad") /\
  ((exists raw, raw ∈ Ports badPort /\ portParses raw = false /\
                InvalidPort "notanumber" "bad" = InvalidPort (portField raw) "bad") \/
   (forallb portParses (Ports badPort) = true /\
    forallb hasColon (Volumes badPort) = true /\
    restartKnown (Restart badPort) = false /\
    InvalidPort "notanumber" "bad" = UnknownRestartPolicy (Restart badPort) "bad")).
Proof.
  split; [reflexivity|].
  exact (translate_fatal_cases "bad" badPort _ eq_refl).
Defined.

(** The environment list cannot make a translation fail, nor change the
    way it fails. *)
Theorem environment_never_fails (name : string) (service : ServiceConfig)
    (env : list string) :
  failure (translate name (withEnvironment env service)) =
    failure (translate name service).
Proof.
  rewrite !translate_rule. unfold translateRule, withEnvironment. simpl.
  destruct (portsRule name (Ports service)); simpl; [|done|done].
  destruct (forallb _ (Volumes service)); [|done].
  by destruct (restartRule (Restart service)).
Qed.

End TranslateOutcome.

Section PortContents.

Lemma portsRule_resolved (name : string) (raws : list string) (ports : list ContainerPort) :
  portsRule name raws = Ok ports ->
  Forall2 (fun raw p => decimalInt32 (portField raw) = Some (ContainerPort_ContainerPort p))
    raws ports.
Proof.
  revert ports. induction raws as [|raw raws IH]; intros ports; simpl.
  - intros [= <-]. constructor.
  - destruct (decimalInt32 (portField raw)) as [n|] eqn:Hn; [|done].
    destruct (portsRule name raws) as [ports'| |]; simpl; [|done|done].
    intros [= <-]. constructor; [done|]. by apply IH.
Qed.

(** In a descriptor that is produced, the port at every position is the
    number [ParseInt] returned, without error, for the text of the source
    entry at that position, and this number lies in the 32-bit signed
    range, so the conversion to [int32] has not changed it. *)
Theorem ports_resolved (name : string) (service : ServiceConfig) (d : ReplicaSet) :
  translate name service = Ok d ->
  exists c,
    PodSpec_Containers (podSpec d) = [c] /\
    Forall2 (fun raw p =>
               exists text,
                 portText raw = Ok text /\
                 Strconv.ParseInt10 text 32 = (ContainerPort_ContainerPort p, None) /\
                 - 2 ^ 31 <= ContainerPort_ContainerPort p < 2 ^ 31)
      (Ports service) (Container_Ports c).
Proof.
  rewrite translate_rule. unfold translateRule.
  destruct (portsRule name (Ports service)) as [ports| |] eqn:Hp; simpl; [|done|done].
  destruct (forallb _ _); [|done].
  destruct (restartRule _) as [p|]; [|done].
  intros [= <-]. eexists. split; [done|]. simpl.
  apply portsRule_resolved in Hp.
  eapply Forall2_impl; [exact Hp|]. simpl.
  intros raw port Hport. exists (portField raw).
  split; [apply portText_field|].
  pose proof (ParseInt10_32 (portField raw)) as Hparse. rewrite Hport in Hparse.
  split; [done|]. by apply (decimalInt32_range (portField raw)).
Qed.

Lemma ports_resolved_witness :
  exists c,
    PodSpec_Containers (podSpec webDescriptor) = [c] /\
    Forall2 (fun raw p =>
               exists text,
                 portText raw = Ok text /\
                 Strconv.ParseInt10 text 32 = (ContainerPort_ContainerPort p, None) /\
                 - 2 ^ 31 <= ContainerPort_ContainerPort p < 2 ^ 31)
      (Ports web) (Container_Ports c).
Proof. exact (ports_resolved "web" web webDescriptor eq_refl). Defined.

Lemma digitsValue_digits (s : string) (acc v : Z) :
  digitsValue s acc = Some v -> allBytes isDigit s = true.
Proof.
  revert acc. induction s as [|c s IH]; intros acc; simpl; [done|].
  unfold isDigit. destruct (Strconv.digit c); [|done]. simpl. apply IH.
Qed.

Lemma decimalInt32_text (s : string) (n : Z) :
  decimalInt32 s = Some n -> isDecimalText s = true.
Proof.
  unfold decimalInt32, decimal, isDecimalText.
  destruct s as [|c s1]; [done|].
  destruct (if Ascii.eqb c "+" || Ascii.eqb c "-" then s1 else String c s1)
    as [|b body] eqn:Hbody; [done|].
  destruct (digitsValue (String b body) 0) as [v|] eqn:Hv; [|done].
  intros _. exact (digitsValue_digits _ _ _ Hv).
Qed.

(** A port entry is accepted only if the text handed to the parser is an
    optional sign followed by decimal digits and nothing else: a space
    next to the colon, an inner quote or a protocol suffix ends the
    service. *)
Theorem port_accepted_text (name : string) (ports ports' : list ContainerPort)
    (raw : string) :
  portBody name ports raw = Ok ports' ->
  exists text, portText raw = Ok text /\ isDecimalText text = true.
Proof.
  rewrite portBody_rule. unfold portRule.
  destruct (decimalInt32 (portField raw)) as [n|] eqn:Hn; [|done].
  intros _. exists (portField raw). split; [apply portText_field|].
  by eapply decimalInt32_text.
Qed.

Lemma port_accepted_text_witness :
  exists text, portText "127.0.0.1:-7" = Ok text /\ isDecimalText text = true.
Proof.
  exact (port_accepted_text "web" [] [ {| ContainerPort_ContainerPort := -7 |} ]
           "127.0.0.1:-7" eq_refl).
Defined.

Lemma digitsValue_bound (s : string) (acc : Z) :
  allBytes isDigit s = true -> 0 <= acc ->
  exists v, digitsValue s acc = Some v /\
            0 <= v < (acc + 1) * 10 ^ Z.of_nat (String.length s).
Proof.
  revert acc. induction s as [|c s IH]; intros acc; simpl String.length.
  - intros _ Hacc. exists acc. split; [done|]. change (10 ^ Z.of_nat 0) with 1. lia.
  - cbn [allBytes digitsValue]. unfold isDigit.
    destruct (Strconv.digit c) as [d|] eqn:Hd; [|done]. simpl.
    intros Hs Hacc. apply digit_range in Hd.
    destruct (IH (10 * acc + d) Hs ltac:(lia)) as (v & Hv & Hbound).
    exists v. split; [done|].
    rewrite Nat2Z.inj_succ, Z.pow_succ_r by lia.
    assert (0 < 10 ^ Z.of_nat (String.length s)) by (apply Z.pow_pos_nonneg; lia).
    nia.
Qed.

(** There is no range check on port numbers beyond the 32 bits: every
    optional sign followed by one to nine digits is accepted, zero,
    negative numbers and numbers above 65535 included. *)
Theorem port_short_decimal_accepted (name : string) (ports : list ContainerPort)
    (raw text : string) :
  portText raw = Ok text ->
  isDecimalText text = true ->
  (String.length text <= 9)%nat ->
  exists n, portBody name ports raw = Ok (ports ++ [ {| ContainerPort_ContainerPort := n |} ]).
Proof.
  rewrite portText_field. intros [= <-] Htext Hlen.
  rewrite portBody_rule. unfold portRule.
  assert (Hsome : exists n, decimalInt32 (portField raw) = Some n);
    [|by destruct Hsome as (n & ->); exists n].
  revert Htext Hlen. generalize (portField raw) as s. intros s.
  unfold isDecimalText, decimalInt32, decimal.
  destruct s as [|c s1]; [done|].
  set (body := if Ascii.eqb c "+" || Ascii.eqb c "-" then s1 else String c s1).
  intros Hdigits Hlen.
  assert (Hbody : (String.length body <= 9)%nat).
  { subst body. destruct (_ || _); simpl in *; lia. }
  destruct body as [|b body']; [done|].
  destruct (digitsValue_bound (String b body') 0 Hdigits ltac:(lia)) as (v & -> & Hv).
  assert (10 ^ Z.of_nat (String.length (String b body')) <= 10 ^ 9)
    by (apply Z.pow_le_mono_r; lia).
  change (10 ^ 9) with 1000000000 in *. change (2 ^ 31) with 2147483648.
  destruct (Ascii.eqb c "-");
    repeat (match goal with
            | |- context [?a <=? ?b] => destruct (Z.leb_spec a b)
            | |- context [?a <? ?b] => destruct (Z.ltb_spec a b)
            end; simpl);
    solve [lia | by eexists].
Qed.

Lemma port_short_decimal_accepted_witness :
  exists n, portBody "web" [] "0:70000" = Ok ([] ++ [ {| ContainerPort_ContainerPort := n |} ]).
Proof.
  apply (port_short_decimal_accepted "web" [] "0:70000" "70000");
    [reflexivity|reflexivity|simpl; lia].
Defined.

End PortContents.

Section EnvContents.

Lemma envRule_fields (envs : list string) :
  Forall (fun e => Strings.Contains (EnvVar_Name e) "=" = false /\
                   Strings.Contains (EnvVar_Value e) "=" = false)
    (flat_map envRule envs).
Proof.
  induction envs as [|env envs IH]; [constructor|].
  simpl. unfold envRule at 1.
  destruct (Strings.Contains env "="); [|done].
  constructor; [|done]. simpl. split; apply Contains_untilSep.
Qed.

Lemma envRule_count (envs : list string) :
  length (flat_map envRule envs) =
    length (filter (fun env => Strings.Contains env "=" = true) envs).
Proof.
  induction envs as [|env envs IH]; [done|].
  simpl. rewrite length_app, filter_cons, IH. unfold envRule.
  destruct (Strings.Contains env "=").
  - by rewrite decide_True by done.
  - by rewrite decide_False by done.
Qed.

(** The environment loop cannot fail, and after it no name and no value
    holds an equals sign; the environment of the descriptor has one entry
    for each source entry with an equals sign, so never more entries than
    the source. *)
Theorem env_entries_invariant (envs : list string) (acc : list EnvVar) :
  exists added,
    forRange envBody envs acc = Ok (acc ++ added) /\
    Forall (fun e => Strings.Contains (EnvVar_Name e) "=" = false /\
                     Strings.Contains (EnvVar_Value e) "=" = false) added /\
    length added = length (filter (fun env => Strings.Contains env "=" = true) envs) /\
    (length added <= length envs)%nat.
Proof.
  exists (flat_map envRule envs).
  split; [apply env_loop|]. split; [apply envRule_fields|].
  split; [apply envRule_count|].
  rewrite envRule_count. apply length_filter.
Qed.

End EnvContents.

Section VolumeContents.

Lemma Contains_deleteByte (s : string) (c : ascii) :
  Strings.Contains (deleteByte c s) c = false.
Proof.
  induction s as [|d s IH]; [done|]. simpl.
  destruct (Ascii.eqb d c) eqn:Hd; [done|].
  by rewrite Contains_cons, Hd, IH.
Qed.

Lemma Contains_deleteByte_other (s : string) (c sep : ascii) :
  Strings.Contains s sep = false -> Strings.Contains (deleteByte c s) sep = false.
Proof.
  induction s as [|d s IH]; [done|].
  rewrite Contains_cons. intros [Hd Hs]%orb_false_elim. simpl.
  destruct (Ascii.eqb d c); [by apply IH|].
  by rewrite Contains_cons, Hd, IH.
Qed.

Lemma Contains_app_sep (a b : string) (sep : ascii) :
  Strings.Contains (a +:+ String sep b) sep = true.
Proof.
  induction a as [|c a IH]; cbn [String.append].
  - by rewrite Contains_cons, Ascii.eqb_refl.
  - rewrite Contains_cons, IH. apply orb_true_r.
Qed.

Lemma untilSep_app (a b : string) (sep : ascii) :
  Strings.Contains a sep = false -> untilSep sep (a +:+ String sep b) = a.
Proof.
  induction a as [|c a IH].
  - intros _. simpl. by rewrite Ascii.eqb_refl.
  - rewrite Contains_cons. intros [Hc Ha]%orb_false_elim.
    simpl. rewrite Hc. by rewrite IH.
Qed.

(** The body of the volume loop either appends one mount and one volume
    or panics; it panics exactly on an entry without a colon and never
    ends with a diagnostic. *)
Theorem volumeBody_panics_iff (volumemounts : list VolumeMount) (volumes : list Volume)
    (volumestr : string) :
  (volumeBody (volumemounts, volumes) volumestr = Panic <-> hasColon volumestr = false) /\
  (hasColon volumestr = true <->
   exists m vol,
     volumeBody (volumemounts, volumes) volumestr =
       Ok (volumemounts ++ [m], volumes ++ [vol])) /\
  (forall msg, volumeBody (volumemounts, volumes) volumestr <> Fatal msg).
Proof.
  rewrite volumeBody_rule. unfold hasColon.
  destruct (Strings.Contains volumestr ":"); repeat split; try done.
  - by eexists _, _.
  - by intros (m & vol & ?).
Qed.

(** In a descriptor that is produced, no volume name and no mount name
    holds a slash, no host path and no mount path holds a colon, and every
    volume has a host-path source. *)
Theorem volume_entries_invariant (name : string) (service : ServiceConfig) (d : ReplicaSet) :
  translate name service = Ok d ->
  Forall (fun vol =>
            Strings.Contains (Volume_Name vol) "/" = false /\
            exists source,
              VolumeSource_HostPath (Volume_VolumeSource vol) = Some source /\
              Strings.Contains (HostPathVolumeSource_Path source) ":" = false /\
              Volume_Name vol = deleteByte "/" (HostPathVolumeSource_Path source))
    (PodSpec_Volumes (podSpec d)) /\
  exists c,
    PodSpec_Containers (podSpec d) = [c] /\
    Forall (fun m =>
              Strings.Contains (VolumeMount_Name m) "/" = false /\
              Strings.Contains (VolumeMount_MountPath m) ":" = false)
      (Container_VolumeMounts c).
Proof.
  rewrite translate_rule. unfold translateRule.
  destruct (portsRule name (Ports service)) as [ports| |]; simpl; [|done|done].
  destruct (forallb _ _); [|done].
  destruct (restartRule _) as [p|]; [|done].
  intros [= <-]. split.
  - simpl. apply Forall_fmap, Forall_true. intros v. simpl.
    split; [apply Contains_deleteByte|].
    eexists. split; [done|]. simpl. split; [apply Contains_untilSep|done].
  - eexists. split; [done|]. simpl.
    apply Forall_fmap, Forall_true. intros v. simpl.
    split; [apply Contains_deleteByte|apply Contains_untilSep].
Qed.

Lemma volume_entries_invariant_witness :
  Forall (fun vol =>
            Strings.Contains (Volume_Name vol) "/" = false /\
            exists source,
              VolumeSource_HostPath (Volume_VolumeSource vol) = Some source /\
              Strings.Contains (HostPathVolumeSource_Path source) ":" = false /\
              Volume_Name vol = deleteByte "/" (HostPathVolumeSource_Path source))
    (PodSpec_Volumes (podSpec databaseDescriptor)) /\
  exists c,
    PodSpec_Containers (podSpec databaseDescriptor) = [c] /\
    Forall (fun m =>
              Strings.Contains (VolumeMount_Name m) "/" = false /\
              Strings.Contains (VolumeMount_MountPath m) ":" = false)
      (Container_VolumeMounts c).
Proof. exact (volume_entries_invariant "db" database databaseDescriptor eq_refl). Defined.

(** Names are not checked for collisions: a host path with a slash and
    the same path written without its slashes are different host paths,
    and the loop gives both volumes, and both mounts, the same name. *)
Theorem volume_names_collide (volumemounts : list VolumeMount) (volumes : list Volume)
    (hostPath containerPath : string) :
  Strings.Contains hostPath "/" = true ->
  Strings.Contains hostPath ":" = false ->
  exists m1 vol1 m2 vol2,
    forRange volumeBody
      [hostPath +:+ String ":" containerPath;
       deleteByte "/" hostPath +:+ String ":" containerPath]
      (volumemounts, volumes)
    = Ok (volumemounts ++ [m1; m2], volumes ++ [vol1; vol2]) /\
    Volume_Name vol1 = Volume_Name vol2 /\
    VolumeMount_Name m1 = VolumeMount_Name m2 /\
    Volume_VolumeSource vol1 <> Volume_VolumeSource vol2.
Proof.
  intros Hslash Hcolon.
  exists (mountRule (hostPath +:+ String ":" containerPath)),
         (volumeRule (hostPath +:+ String ":" containerPath)),
         (mountRule (deleteByte "/" hostPath +:+ String ":" containerPath)),
         (volumeRule (deleteByte "/" hostPath +:+ String ":" containerPath)).
  assert (Hname : deleteByte "/" (deleteByte "/" hostPath) = deleteByte "/" hostPath).
  { generalize hostPath as s. intros s. induction s as [|c s IH]; [done|]. simpl.
    destruct (Ascii.eqb c "/") eqn:Hc; [done|]. simpl. by rewrite Hc, IH. }
  split; [|split; [|split]].
  - rewrite volume_loop. simpl. rewrite !Contains_app_sep. done.
  - simpl. rewrite !untilSep_app; [done| |done].
    by apply Contains_deleteByte_other.
  - simpl. rewrite !untilSep_app; [done| |done].
    by apply Contains_deleteByte_other.
  - simpl. rewrite !untilSep_app; [|by apply Contains_deleteByte_other|done].
    intros [= Heq]. pose proof (Contains_deleteByte hostPath "/") as Hnone.
    rewrite <- Heq in Hnone. congruence.
Qed.

Lemma volume_names_collide_witness :
  exists m1 vol1 m2 vol2,
    forRange volumeBody ["/a/b:/x"; "ab:/x"] ([], [])
    = Ok ([] ++ [m1; m2], [] ++ [vol1; vol2]) /\
    Volume_Name vol1 = Volume_Name vol2 /\
    VolumeMount_Name m1 = VolumeMount_Name m2 /\
    Volume_VolumeSource vol1 <> Volume_VolumeSource vol2.
Proof.
  apply (volume_names_collide [] [] "/a/b" "/x"); reflexivity.
Defined.

End VolumeContents.

Section FixedFields.

(** The assignments that fill in the lists leave the rest of the replica
    set as it was built: kind [ReplicaSet], API version
    [extensions/v1beta1], no selector, an unnamed pod template. *)
Theorem descriptor_fixed_fields (name : string) (service : ServiceConfig) (d : ReplicaSet) :
  translate name service = Ok d ->
  ReplicaSet_TypeMeta d =
    {| TypeMeta_Kind := "ReplicaSet"; TypeMeta_APIVersion := "extensions/v1beta1" |} /\
  ReplicaSetSpec_Selector (ReplicaSet_Spec d) = None /\
  ObjectMeta_Name
    (PodTemplateSpec_ObjectMeta (ReplicaSetSpec_Template (ReplicaSet_Spec d))) = "".
Proof.
  rewrite translate_rule. unfold translateRule.
  destruct (portsRule name (Ports service)) as [ports| |]; simpl; [|done|done].
  destruct (forallb _ _); [|done].
  destruct (restartRule _) as [p|]; [|done].
  by intros [= <-].
Qed.

Lemma descriptor_fixed_fields_witness :
  ReplicaSet_TypeMeta webDescriptor =
    {| TypeMeta_Kind := "ReplicaSet"; TypeMeta_APIVersion := "extensions/v1beta1" |} /\
  ReplicaSetSpec_Selector (ReplicaSet_Spec webDescriptor) = None /\
  ObjectMeta_Name
    (PodTemplateSpec_ObjectMeta (ReplicaSetSpec_Template (ReplicaSet_Spec webDescriptor))) = "".
Proof. exact (descriptor_fixed_fields "web" web webDescriptor eq_refl). Defined.

End FixedFields.

(** * Properties of the run over the services *)

Section RunFacts.

Variable MarshalIndent : ReplicaSet -> string + string.
Variable Join : string -> string -> string.
Variable WriteFile : string -> string -> option string.
Variable outputDir : string.
Variable ServiceConfigs : gmap string ServiceConfig.

#[local] Abbreviation run := (mainLoop MarshalIndent Join WriteFile outputDir ServiceConfigs).
#[local] Abbreviation body := (serviceBody MarshalIndent Join WriteFile outputDir ServiceConfigs).
#[local] Abbreviation writes := (serviceWrites MarshalIndent Join WriteFile outputDir ServiceConfigs).

Lemma serviceBody_writes (w : world) (name : string) :
  match writes name with
  | Some entry =>
      body w name =
        ({| files := files w ++ [entry]; stdout := stdout w ++ [entry.1] |}, Ok ())
  | None => exists r, body w name = (w, r) /\ succeeded r = false
  end.
Proof.
  unfold serviceWrites, fileFor, serviceBody, fileNameOf.
  destruct (ServiceConfigs !! name) as [service|]; [|by eexists].
  destruct (translate name service) as [rs|msg|]; [|by eexists|by eexists].
  destruct (MarshalIndent rs) as [data|err]; [|by eexists].
  destruct (WriteFile _ data); [by eexists|done].
Qed.

Lemma mainLoop_failed (w : world) (name : string) (keys : list string) (r : outcome unit) :
  body w name = (w, r) -> succeeded r = false -> run (name :: keys) w = (w, r).
Proof. intros Hbody Hr. cbn [mainLoop]. rewrite Hbody. by destruct r. Qed.

(** A run over two lists of keys in a row is the run over the first
    list followed, if that one went through, by the run over the second
    list from the world it left; otherwise it stops where the first
    stopped. *)
Theorem mainLoop_app (keys1 keys2 : list string) (w : world) :
  run (keys1 ++ keys2) w =
    match run keys1 w with
    | (w1, Ok _) => run keys2 w1
    | (w1, Fatal msg) => (w1, Fatal msg)
    | (w1, Panic) => (w1, Panic)
    end.
Proof.
  revert w. induction keys1 as [|name keys1 IH]; intros w; [done|].
  cbn [app mainLoop].
  destruct (body w name) as [w1 [[]|msg|]]; [apply IH|done|done].
Qed.


(** A run ends normally exactly when every key, in its turn, has its
    file written: the key is in the map, its service translates, the
    replica set serializes and the write reports no error. *)
Theorem run_succeeds_iff (keys : list string) (w : world) :
  succeeded (run keys w).2 =
    forallb (fun name => bool_decide (is_Some (writes name))) keys.
Proof.
  revert w. induction keys as [|name keys IH]; intros w; [done|].
  pose proof (serviceBody_writes w name) as Hbody.
  cbn [forallb]. destruct (writes name) as [entry|] eqn:Hname.
  - cbn [mainLoop]. rewrite Hbody, IH.
    by rewrite (bool_decide_true (is_Some (Some entry))) by by eexists.
  - destruct Hbody as (r & Hbody & Hr).
    rewrite (mainLoop_failed w name keys r Hbody Hr). cbn [snd]. rewrite Hr.
    rewrite (bool_decide_false (is_Some None)); [done|]. by intros [? ?].
Qed.


End RunFacts.

Section RunWitnesses.


End RunWitnesses.

Section PortCleaning.

(** Lines 108-109 only take away what surrounds the port text: the raw
    entry is the cleaned text inside a run of white-space runes on each
    side, inside a run of double quotes on each side; the cleaned text
    neither starts nor ends with a white-space rune, and nothing inside
    it is touched. *)
Theorem port_cleaning_surrounding (raw : string) :
  let cleaned := Strings.TrimSpace (Strings.Trim raw quoteCutset) in
  (exists quotesL spacesL spacesR quotesR,
      raw = quotesL +:+
            fold_right String.append
              (cleaned +:+ fold_right String.append "" spacesR) spacesL +:+
            quotesR /\
      allBytes (fun c => Ascii.eqb c (Strings.byte 34)) quotesL = true /\
      allBytes (fun c => Ascii.eqb c (Strings.byte 34)) quotesR = true /\
      Forall (fun w => Strings.isSpaceRune w = true) spacesL /\
      Forall (fun w => Strings.isSpaceRune w = true) spacesR) /\
  (forall w rest, Strings.isSpaceRune w = true -> cleaned <> w +:+ rest) /\
  (forall front w, Strings.isSpaceRune w = true -> cleaned <> front +:+ w).
Proof.
  intros cleaned.
  destruct (Trim_surrounding raw quoteCutset) as [(ql & qr & Hraw & Hql & Hqr) _].
  destruct (TrimSpace_surrounding (Strings.Trim raw quoteCutset))
    as [(ls & rs & Hls & Hrs & Htrim) [Hhead Hlast]].
  assert (Hquotes : forall q,
    (forall c, Strings.inSet c q = true -> Strings.inSet c quoteCutset = true) ->
    allBytes (fun c => Ascii.eqb c (Strings.byte 34)) q = true).
  { intros q. induction q as [|c q IH]; [done|]. intros Hq. simpl.
    rewrite IH.
    - rewrite andb_true_r. specialize (Hq c). simpl in Hq.
      rewrite Ascii.eqb_refl in Hq. specialize (Hq eq_refl).
      by rewrite orb_false_r in Hq.
    - intros d Hd. apply Hq. simpl. rewrite Hd. apply orb_true_r. }
  split; [|done].
  exists ql, ls, rs, qr. split; [|by auto].
  fold cleaned in Htrim. by rewrite <- Htrim.
Qed.

End PortCleaning.
